(** * Snake game: a shallow embedding of [snake_game.py] and its properties

    The development follows the source file top to bottom: the game
    constants, the persistence helpers ([load_settings], [Leaderboard]),
    the entities ([Snake], [Food], [SpecialFood]) and one iteration of the
    loop of [run_game].  Python integers are [Z]; Python lists are [list];
    a position [[x, y]] is a pair; the four direction strings are an
    enumeration.  A Python float is the rational it denotes, and every
    floating-point operation rounds its exact result to binary64
    ([Float.fl]).  [str.lower] and [str.strip], which depend on the
    tables of Unicode, are parameters of what uses them.  The
    pseudo-random generator is an oracle: every call of [random.*]
    consumes one integer of an entropy list.  Rendering and sound are
    left out. *)

From Stdlib Require Import ZArith List String Ascii Bool Lia QArith Qround Qpower Lqa.
From Stdlib Require Import Permutation Sorted.
Import ListNotations.

Local Open Scope Z_scope.

(** ** Game constants and rectangles *)

Definition WIDTH : Z := 800.
Definition HEIGHT : Z := 600.
Definition GRID_SIZE : Z := 20.

Definition Position : Type := (Z * Z)%type.

Definition position_eqb (p q : Position) : bool :=
  (fst p =? fst q) && (snd p =? snd q).

Module Rect.

(** [pygame.Rect(left, top, width, height)]. *)
Record t : Type := make { left : Z; top : Z; width : Z; height : Z }.

(** [Rect.colliderect]: the two rectangles overlap; touching edges do
    not count.  Every rectangle of the game has positive sides. *)
Definition colliderect (a b : t) : bool :=
  (left a <? left b + width b) && (left b <? left a + width a) &&
  (top a <? top b + height b) && (top b <? top a + height a).

(** [Rect.collidepoint]: right and bottom edges are outside. *)
Definition collidepoint (a : t) (p : Position) : bool :=
  (left a <=? fst p) && (fst p <? left a + width a) &&
  (top a <=? snd p) && (snd p <? top a + height a).

End Rect.

Definition forbidden_pause : Rect.t := Rect.make (WIDTH - 60) 20 40 40.
Definition forbidden_score : Rect.t := Rect.make 0 0 150 50.

(** The test shared by [Food.spawn], [SpecialFood.spawn] and
    [SpecialFood.update]. *)
Definition hits_forbidden (r : Rect.t) : bool :=
  Rect.colliderect r forbidden_pause || Rect.colliderect r forbidden_score.

(** ** The random oracle *)

Module Random.

(** Number of elements of [range(start, stop, step)] for [step > 0]. *)
Definition range_len (start stop step : Z) : Z :=
  Z.max 0 ((stop - start + step - 1) / step).

(** [random.randrange(start, stop, step)] driven by the oracle value
    [r]: some element of the range, every element for some [r]. *)
Definition randrange (start stop step r : Z) : Z :=
  start + step * (r mod range_len start stop step).

(** [random.choice(seq)] driven by the oracle value [r]. *)
Definition choice (seq : list Z) (r : Z) : Z :=
  nth (Z.to_nat (r mod Z.of_nat (List.length seq))) seq 0.

End Random.

(** ** class Snake *)

Inductive Direction : Type := RIGHT | LEFT | UP | DOWN.

Definition Direction_eqb (a b : Direction) : bool :=
  match a, b with
  | RIGHT, RIGHT | LEFT, LEFT | UP, UP | DOWN, DOWN => true
  | _, _ => false
  end.

Definition opposite (d : Direction) : Direction :=
  match d with
  | RIGHT => LEFT
  | LEFT => RIGHT
  | UP => DOWN
  | DOWN => UP
  end.

Module Snake.

Record t : Type := make {
  head : Position;
  body : list Position;
  direction : Direction;
  new_direction : Direction;
  grow : bool
}.

(** [Snake.__init__]. *)
Definition init : t :=
  make (WIDTH / 2, HEIGHT / 2) [] RIGHT RIGHT false.

Definition set_direction (d : Direction) (s : t) : t :=
  make (head s) (body s) d (new_direction s) (grow s).

Definition set_new_direction (d : Direction) (s : t) : t :=
  make (head s) (body s) (direction s) d (grow s).

Definition set_grow (b : bool) (s : t) : t :=
  make (head s) (body s) (direction s) (new_direction s) b.

(** One of the four guarded assignments that open [move]:
    [if self.new_direction == d and self.direction != opp: self.direction = d]. *)
Definition commit_if (d opp : Direction) (s : t) : t :=
  if Direction_eqb (new_direction s) d && negb (Direction_eqb (direction s) opp)
  then set_direction d s
  else s.

(** The four [if]s run one after the other, each on the result of the
    previous one. *)
Definition commit (s : t) : t :=
  commit_if DOWN UP (commit_if UP DOWN (commit_if LEFT RIGHT (commit_if RIGHT LEFT s))).

(** [self.body.insert(0, self.head.copy())] followed by [self.body.pop()]
    or by clearing the flag.  The list is never empty when [pop] runs. *)
Definition shift_body (s : t) : t :=
  let pushed := head s :: body s in
  if negb (grow s)
  then make (head s) (removelast pushed) (direction s) (new_direction s) (grow s)
  else make (head s) pushed (direction s) (new_direction s) false.

(** The displacement of the head for each direction. *)
Definition step_of (d : Direction) (p : Position) : Position :=
  match d with
  | RIGHT => (fst p + GRID_SIZE, snd p)
  | LEFT => (fst p - GRID_SIZE, snd p)
  | UP => (fst p, snd p - GRID_SIZE)
  | DOWN => (fst p, snd p + GRID_SIZE)
  end.

Definition move_head (s : t) : t :=
  make (step_of (direction s) (head s)) (body s) (direction s)
       (new_direction s) (grow s).

(** [Snake.move]. *)
Definition move (s : t) : t := move_head (shift_body (commit s)).

End Snake.

(** ** class Food *)

Module Food.

Definition rect_at (p : Position) : Rect.t :=
  Rect.make (fst p) (snd p) GRID_SIZE GRID_SIZE.

(** One pass of the [while True] loop of [Food.spawn]: two draws. *)
Definition candidate (rx ry : Z) : Position :=
  (Random.randrange 0 WIDTH GRID_SIZE rx, Random.randrange 0 HEIGHT GRID_SIZE ry).

(** [Food.spawn]: draw until a candidate clears both rectangles.  The
    result is the accepted cell and the unused entropy; [None] when the
    entropy runs out before a candidate is accepted.  The snake is not
    an argument: the source never looks at it. *)
Fixpoint spawn (entropy : list Z) : option (Position * list Z) :=
  match entropy with
  | rx :: ry :: rest =>
      if hits_forbidden (rect_at (candidate rx ry))
      then spawn rest
      else Some (candidate rx ry, rest)
  | _ => None
  end.

End Food.

(** ** class SpecialFood *)

Module SpecialFood.

Record t : Type := make { x : Z; y : Z; dx : Z; dy : Z }.

Definition points : Z := 20.

Definition speeds : list Z := [-5; -4; 4; 5].

(** [SpecialFood.get_rect]. *)
Definition get_rect (s : t) : Rect.t :=
  Rect.make (x s) (y s) (2 * GRID_SIZE) GRID_SIZE.

Definition candidate (rx ry : Z) : Position :=
  (Random.randrange 0 (WIDTH - 2 * GRID_SIZE) GRID_SIZE rx,
   Random.randrange 0 (HEIGHT - GRID_SIZE) GRID_SIZE ry).

(** [SpecialFood.spawn]. *)
Fixpoint spawn (entropy : list Z) : option (Position * list Z) :=
  match entropy with
  | rx :: ry :: rest =>
      let c := candidate rx ry in
      if hits_forbidden (Rect.make (fst c) (snd c) (2 * GRID_SIZE) GRID_SIZE)
      then spawn rest
      else Some (c, rest)
  | _ => None
  end.

(** [SpecialFood.__init__]: [spawn()], then the two [random.choice]s. *)
Definition init (entropy : list Z) : option (t * list Z) :=
  match spawn entropy with
  | Some (p, rdx :: rdy :: rest) =>
      Some (make (fst p) (snd p) (Random.choice speeds rdx) (Random.choice speeds rdy), rest)
  | _ => None
  end.

(** The three stages of [SpecialFood.update], in source order. *)
Definition advance (s : t) : t :=
  make (x s + dx s) (y s + dy s) (dx s) (dy s).

Definition bounce_x (s : t) : t :=
  if (x s <? 0) || (x s >? WIDTH - 2 * GRID_SIZE)
  then make (x s + - dx s) (y s) (- dx s) (dy s)
  else s.

Definition bounce_y (s : t) : t :=
  if (y s <? 0) || (y s >? HEIGHT - GRID_SIZE)
  then make (x s) (y s + - dy s) (dx s) (- dy s)
  else s.

Definition escape (s : t) : t :=
  if hits_forbidden (get_rect s)
  then make (x s + - dx s) (y s + - dy s) (- dx s) (- dy s)
  else s.

(** [SpecialFood.update]. *)
Definition update (s : t) : t := escape (bounce_y (bounce_x (advance s))).

(** The states a special food goes through: created by [__init__],
    then moved by [update]. *)
Inductive reachable : t -> Prop :=
| reach_init entropy s rest :
    init entropy = Some (s, rest) -> reachable s
| reach_update s :
    reachable s -> reachable (update s).

End SpecialFood.

(** ** Exceptions and files *)

Inductive exn : Type := FileNotFoundError | JSONDecodeError | AttributeError.

Inductive result (A : Type) : Type :=
| Ok (a : A)
| Raise (e : exn).
Arguments Ok {A} a.
Arguments Raise {A} e.

Definition bind {A B : Type} (r : result A) (k : A -> result B) : result B :=
  match r with
  | Ok a => k a
  | Raise e => Raise e
  end.

Notation "x <- r ;; k" := (bind r (fun x => k))
  (at level 61, r at next level, right associativity).

(** [try: body except <class>: handler], the class given as a test on the
    exception raised. *)
Definition try_except {A : Type} (body : result A) (catches : exn -> bool)
    (handler : result A) : result A :=
  match body with
  | Ok a => Ok a
  | Raise e => if catches e then handler else Raise e
  end.

Definition is_FileNotFoundError (e : exn) : bool :=
  match e with FileNotFoundError => true | _ => false end.

(** [except Exception] catches every exception of the model. *)
Definition is_Exception (e : exn) : bool := true.

(** The text of a file as [json.load] sees it: either it does not parse,
    or it parses to a value. *)
Inductive content (A : Type) : Type :=
| Garbage
| Json (v : A).
Arguments Garbage {A}.
Arguments Json {A} v.

(** A path of the file system: [None] when no file is there. *)
Definition file (A : Type) : Type := option (content A).

Definition path_exists {A : Type} (f : file A) : bool :=
  match f with Some _ => true | None => false end.

(** [open(path, 'r')]. *)
Definition open_read {A : Type} (f : file A) : result (content A) :=
  match f with
  | Some c => Ok c
  | None => Raise FileNotFoundError
  end.

(** [json.load(f)]. *)
Definition json_load {A : Type} (c : content A) : result A :=
  match c with
  | Json v => Ok v
  | Garbage => Raise JSONDecodeError
  end.

(** ** Settings *)

Module Settings.

Record t : Type := make { sound_volume : Q; game_speed : Q }.

(** The module-level assignments [sound_volume = 0.5], [game_speed = 0.1]. *)
Definition defaults : t := make 0.5%Q 0.1%Q.

(** What [json.load] may give back for the settings file: an object
    with numeric members, or a value without a [get] method. *)
Inductive json : Type :=
| JObject (members : list (string * Q))
| JOther.

(** [settings.get(key, default)]. *)
Definition get (j : json) (key : string) (default : Q) : result Q :=
  match j with
  | JObject members =>
      match find (fun kv => String.eqb (fst kv) key) members with
      | Some kv => Ok (snd kv)
      | None => Ok default
      end
  | JOther => Raise AttributeError
  end.

(** [load_settings], as a function of the two globals and of the file. *)
Definition load_settings (globals : t) (f : file json) : result t :=
  if path_exists f then
    try_except
      (c <- open_read f ;;
       settings <- json_load c ;;
       sv <- get settings "sound_volume" 0.5%Q ;;
       gs <- get settings "game_speed" 0.4%Q ;;
       Ok (make sv gs))
      is_Exception
      (Ok globals)
  else Ok (make 0.5%Q 0.1%Q).

End Settings.

(** ** class Leaderboard *)

Module Leaderboard.

Record entry : Type := make_entry { username : string; score : Z; date : string }.

(** [Leaderboard.load]. *)
Definition load (f : file (list entry)) : result (list entry) :=
  try_except
    (c <- open_read f ;; json_load c)
    is_FileNotFoundError
    (Ok []).

(** A Python [str] is modelled by a [string], the encoding of its
    characters; two names are equal when their encodings are.
    [str.lower] folds every cased letter of Unicode, and the names come
    from the keyboard ([event.unicode]), so it is taken as it is: the
    function [lower] below stands for it, and [add_score] is defined, and
    its properties proved, for every such function. *)

(** What [str.lower] does on the characters of ASCII: the letters A to Z
    are folded, everything else is kept.  It serves in the examples. *)
Definition lower_letter (c : ascii) : ascii :=
  let n := nat_of_ascii c in
  if (65 <=? n)%nat && (n <=? 90)%nat then ascii_of_nat (n + 32) else c.

Fixpoint ascii_lower (s : string) : string :=
  match s with
  | EmptyString => EmptyString
  | String c rest => String (lower_letter c) (ascii_lower rest)
  end.

(** [list.sort(key=score, reverse=True)] is stable: records of equal
    score keep their order.  The result is the one of inserting the
    records left to right, each after the records of greater or equal
    score. *)
Fixpoint insert_desc (e : entry) (l : list entry) : list entry :=
  match l with
  | [] => [e]
  | h :: t => if score h <? score e then e :: h :: t else h :: insert_desc e t
  end.

Definition sort_desc (l : list entry) : list entry :=
  fold_left (fun acc e => insert_desc e acc) l [].

Section WithLower.

(** [str.lower]. *)
Variable lower : string -> string.

(** The test of the generator expression in [add_score]:
    [s["username"].lower() == username.lower()]. *)
Definition same_user (u : string) (e : entry) : bool :=
  String.eqb (lower (username e)) (lower u).

(** [existing["score"] = score; existing["date"] = now]: [existing] is
    the first matching record of the list itself, so the list changes
    at that place. *)
Fixpoint update_existing (u : string) (sc : Z) (now : string)
    (scores : list entry) : list entry :=
  match scores with
  | [] => []
  | e :: rest =>
      if same_user u e
      then make_entry (username e) sc now :: rest
      else e :: update_existing u sc now rest
  end.

(** [Leaderboard.add_score]; [now] is the formatted [datetime.now()]. *)
Definition add_score (scores : list entry) (u : string) (sc : Z) (now : string)
    : list entry :=
  let scores1 :=
    match find (same_user u) scores with
    | Some existing =>
        if sc >? score existing
        then update_existing u sc now scores
        else scores
    | None => scores ++ [make_entry u sc now]
    end in
  firstn 10 (sort_desc scores1).

(** A run of calls, oldest first. *)
Definition add_scores (scores : list entry) (calls : list (string * Z * string))
    : list entry :=
  fold_left (fun acc c => add_score acc (fst (fst c)) (snd (fst c)) (snd c)) calls scores.

End WithLower.

End Leaderboard.

(** ** Floating-point numbers *)

(** A Python float is a binary64 number; it is modelled by the rational
    it denotes.  An arithmetic operation on floats gives the exact result
    rounded to the nearest binary64 number, ties to the even significand:
    [a * b] is [fl (a * b)] and [a + b] is [fl (a + b)].  An integer
    operand is converted exactly (all integers of the program are far
    below 2^53).  Numbers beyond the largest binary64 number, where
    Python would give [inf], do not arise and are not modelled. *)
Module Float.

Definition pow2 (e : Z) : Q := (2 ^ e)%Q.

(** The binade of a positive number: the [e] with [2^e <= q < 2^(e+1)]. *)
Definition binade (q : Q) : Z :=
  let e0 := Z.log2 (Qnum q) - Z.log2 (Z.pos (Qden q)) in
  if Qle_bool (pow2 e0) q then e0 else e0 - 1.

(** The exponent of the last place of the numbers of that binade: 53
    significant bits, and never below the subnormal spacing [2^-1074]. *)
Definition ulp_exp (q : Q) : Z := Z.max (binade q - 52) (-1074).

(** The nearest integer, a tie going to the even one. *)
Definition round_half_even (q : Q) : Z :=
  let f := Qfloor q in
  match (q - inject_Z f ?= 1 # 2)%Q with
  | Lt => f
  | Gt => f + 1
  | Eq => if Z.even f then f else f + 1
  end.

(** A positive number rounded to a multiple of its last place. *)
Definition round_pos (q : Q) : Q :=
  (inject_Z (round_half_even (q / pow2 (ulp_exp q))) * pow2 (ulp_exp q))%Q.

(** The binary64 number nearest to [q]. *)
Definition fl (q : Q) : Q :=
  match Qnum q with
  | Z0 => 0%Q
  | Zpos _ => round_pos q
  | Zneg _ => (- round_pos (- q))%Q
  end.

End Float.

(** The floats [0.1], [0.15], [0.41] and [0.49999999999999994] of Python,
    as [float.as_integer_ratio] gives them. *)
Definition double_0_1 : Q := 3602879701896397 # 36028797018963968.
Definition double_0_15 : Q := 5404319552844595 # 36028797018963968.
Definition double_0_41 : Q := 7385903388887613 # 18014398509481984.
Definition double_below_half : Q := 9007199254740991 # 18014398509481984.

(** ** run_game *)

Inductive Key : Type := K_RIGHT | K_LEFT | K_UP | K_DOWN | K_p | K_other.

Inductive Event : Type :=
| QUIT
| KEYDOWN (key : Key)
| MOUSEBUTTONDOWN (pos : Position)
| OTHER_EVENT.

(** What [pause_menu] comes back with; it can also end the process. *)
Inductive PauseResult : Type := Resume | Menu | QuitWhilePaused.

(** How a stretch of the loop body ends: it goes on with a value, the
    process exits ([sys.exit]), the function returns to the main menu,
    or a spawn loop is still drawing when the entropy is used up. *)
Inductive Control (A : Type) : Type :=
| Next (a : A)
| Exit
| Return
| Starved.
Arguments Next {A} a.
Arguments Exit {A}.
Arguments Return {A}.
Arguments Starved {A}.

Module Game.

Record t : Type := make {
  snake : Snake.t;
  food : Position;
  special_food : option SpecialFood.t;
  special_spawn_timer : Z;
  score : Z;
  failed : bool;
  current_fps : Z;
  is_paused : bool
}.

(** One pass of the loop: the clock, the event queue, what the pause
    menu would answer, and the entropy the pass may draw from. *)
Record Frame : Type := frame {
  current_time : Z;
  events : list Event;
  pause_result : PauseResult;
  entropy : list Z
}.

(** [int(q)]: truncation towards zero. *)
Definition int (q : Q) : Z := Z.quot (Qnum q) (Z.pos (Qden q)).

(** [int(10 + game_speed * 20)] on the float [game_speed]: the product
    is rounded, then the sum, then [int] truncates. *)
Definition fps_of (game_speed : Q) : Z :=
  int (Float.fl (10 + Float.fl (game_speed * 20)))%Q.

(** The state on entry of the loop. *)
Definition start (game_speed : Q) (ticks : Z) (entropy : list Z) : option t :=
  match Food.spawn entropy with
  | Some (p, _) =>
      Some (make Snake.init p None ticks 0 false (fps_of game_speed) false)
  | None => None
  end.

(** [if special_food is None and current_time - special_spawn_timer >= 4000]. *)
Definition spawn_special (fr : Frame) (g : t)
    : Control (option SpecialFood.t * list Z) :=
  match special_food g with
  | None =>
      if current_time fr - special_spawn_timer g >=? 4000
      then match SpecialFood.init (entropy fr) with
           | Some (sf, rest) => Next (Some sf, rest)
           | None => Starved
           end
      else Next (None, entropy fr)
  | Some sf => Next (Some sf, entropy fr)
  end.

Definition key_direction (k : Key) : option Direction :=
  match k with
  | K_RIGHT => Some RIGHT
  | K_LEFT => Some LEFT
  | K_UP => Some UP
  | K_DOWN => Some DOWN
  | _ => None
  end.

Definition is_K_p (k : Key) : bool :=
  match k with K_p => true | _ => false end.

Definition pause_button_rect : Rect.t := Rect.make (WIDTH - 60) 20 40 40.

(** The body of [for event in pygame.event.get()], on the snake and the
    pause flag. *)
Definition handle_event (st : Snake.t * bool) (e : Event)
    : Control (Snake.t * bool) :=
  let (sn, paused) := st in
  match e with
  | QUIT => Exit
  | KEYDOWN k =>
      let sn1 :=
        if negb paused
        then match key_direction k with
             | Some d => Snake.set_new_direction d sn
             | None => sn
             end
        else sn in
      Next (sn1, if is_K_p k then true else paused)
  | MOUSEBUTTONDOWN pos =>
      Next (sn, if Rect.collidepoint pause_button_rect pos then true else paused)
  | OTHER_EVENT => Next (sn, paused)
  end.

Fixpoint handle_events (evs : list Event) (st : Snake.t * bool)
    : Control (Snake.t * bool) :=
  match evs with
  | [] => Next st
  | e :: rest =>
      match handle_event st e with
      | Next st1 => handle_events rest st1
      | Exit => Exit
      | Return => Return
      | Starved => Starved
      end
  end.

(** [if is_paused: result = pause_menu(screen) ...]; gives the flag. *)
Definition pause (fr : Frame) (paused : bool) : Control bool :=
  if paused
  then match pause_result fr with
       | Resume => Next false
       | Menu => Return
       | QuitWhilePaused => Exit
       end
  else Next paused.

(** [if head == food.position: ...]. *)
Definition food_collision (sn : Snake.t) (food : Position) (score : Z)
    (entropy : list Z) : Control (Snake.t * Position * Z) :=
  if position_eqb (Snake.head sn) food
  then match Food.spawn entropy with
       | Some (p, _) => Next (Snake.set_grow true sn, p, score + 10)
       | None => Starved
       end
  else Next (sn, food, score).

(** The loop body up to and including the normal food. *)
Definition upto_food (fr : Frame) (g : t) : Control t :=
  match spawn_special fr g with
  | Next (sf, rest) =>
      match handle_events (events fr) (snake g, is_paused g) with
      | Next (sn, paused) =>
          match pause fr paused with
          | Next paused1 =>
              match food_collision (Snake.move sn) (food g) (score g) rest with
              | Next (sn1, food1, score1) =>
                  Next (make sn1 food1 sf (special_spawn_timer g) score1
                             (failed g) (current_fps g) paused1)
              | Exit => Exit
              | Return => Return
              | Starved => Starved
              end
          | Exit => Exit
          | Return => Return
          | Starved => Starved
          end
      | Exit => Exit
      | Return => Return
      | Starved => Starved
      end
  | Exit => Exit
  | Return => Return
  | Starved => Starved
  end.

(** [head_rect.colliderect(special_rect)]. *)
Definition special_hit (sn : Snake.t) (sf : SpecialFood.t) : bool :=
  Rect.colliderect
    (Rect.make (fst (Snake.head sn)) (snd (Snake.head sn)) GRID_SIZE GRID_SIZE)
    (SpecialFood.get_rect sf).

(** [if special_food is not None: ...]. *)
Definition special_collision (now : Z) (g : t) : t :=
  match special_food g with
  | Some sf =>
      if special_hit (snake g) sf
      then make (Snake.set_grow true (snake g)) (food g) None now
                (score g + SpecialFood.points) (failed g) (current_fps g) (is_paused g)
      else g
  | None => g
  end.

(** The two terminal tests: out of the window, or [head in snake.body]. *)
Definition out_of_bounds (p : Position) : bool :=
  (fst p <? 0) || (fst p >=? WIDTH) || (snd p <? 0) || (snd p >=? HEIGHT).

Definition dead (sn : Snake.t) : bool :=
  out_of_bounds (Snake.head sn) || existsb (position_eqb (Snake.head sn)) (Snake.body sn).

Definition set_failed (g : t) : t :=
  make (snake g) (food g) (special_food g) (special_spawn_timer g) (score g)
       true (current_fps g) (is_paused g).

(** [special_food.update()] in the drawing part. *)
Definition update_special (g : t) : t :=
  make (snake g) (food g) (option_map SpecialFood.update (special_food g))
       (special_spawn_timer g) (score g) (failed g) (current_fps g) (is_paused g).

(** How one pass of [while True] ends. *)
Inductive Outcome : Type :=
| Continue (g : t)
| Break (g : t)
| Stop (c : Control t).

(** One pass of the loop of [run_game]. *)
Definition tick (fr : Frame) (g : t) : Outcome :=
  match upto_food fr g with
  | Next g1 =>
      let g2 := special_collision (current_time fr) g1 in
      if dead (snake g2) then Break (set_failed g2) else Continue (update_special g2)
  | c => Stop c
  end.

(** Whether the pass [fr] from [g] takes the special food. *)
Definition takes_special (fr : Frame) (g : t) : bool :=
  match upto_food fr g with
  | Next g1 =>
      match special_food g1 with
      | Some sf => special_hit (snake g1) sf
      | None => false
      end
  | _ => false
  end.

(** The states of a session, with the number of special foods taken on
    the way. *)
Inductive reaches : nat -> t -> Prop :=
| reaches_start game_speed ticks entropy g :
    start game_speed ticks entropy = Some g -> reaches 0 g
| reaches_tick n g fr g' :
    reaches n g -> tick fr g = Continue g' ->
    reaches (if takes_special fr g then S n else n) g'.

Definition reachable (g : t) : Prop := exists n, reaches n g.

(** Body segments, counting the one the next [move] will add. *)
Definition segments (g : t) : Z :=
  Z.of_nat (List.length (Snake.body (snake g))) + (if Snake.grow (snake g) then 1 else 0).

End Game.

(** ** Specification predicates *)

Module SpecialFoodInv.
Import SpecialFood.

(** The footprint is clear of both exclusion rectangles. *)
Definition clear (s : t) : Prop := hits_forbidden (get_rect s) = false.

(** Positions stay on the lattice generated by the velocity, at most one
    step outside the playing field. *)
Definition lattice (s : t) : Prop :=
  x s mod Z.abs (dx s) = 0 /\ y s mod Z.abs (dy s) = 0 /\
  - Z.abs (dx s) <= x s <= WIDTH - 2 * GRID_SIZE + Z.abs (dx s) /\
  - Z.abs (dy s) <= y s <= HEIGHT - GRID_SIZE + Z.abs (dy s).

(** A food that sits outside the field and still points outwards (the
    state an escape leaves behind) is not about to run into a rectangle
    on its way back. *)
Definition outward_safe (s : t) : Prop :=
  (x s < 0 -> dx s < 0 -> 0 < dy s \/ 50 <= y s + dy s) /\
  (y s < 0 -> dy s < 0 -> 0 < dx s \/ 150 <= x s + dx s) /\
  (WIDTH - 2 * GRID_SIZE < x s -> 0 < dx s -> y s + dy s <= 0 \/ 60 <= y s + dy s).

Definition Inv (s : t) : Prop :=
  In (dx s) speeds /\ In (dy s) speeds /\ lattice s /\ clear s /\ outward_safe s.

End SpecialFoodInv.

(** The key bound to each direction in the event loop. *)
Definition arrow (d : Direction) : Key :=
  match d with
  | RIGHT => K_RIGHT
  | LEFT => K_LEFT
  | UP => K_UP
  | DOWN => K_DOWN
  end.

(** Case analysis on a velocity component drawn from [SpecialFood.speeds]. *)
Ltac speed_cases H :=
  simpl in H; destruct H as [<- | [<- | [<- | [<- | []]]]].

(** A short session used as an example: the first food lies one cell
    ahead of the snake, and the oracle draws the same cell again when the
    food is eaten. *)
Definition demo_first_frame : Game.Frame := Game.frame 100 [] Resume [21; 15].
Definition demo_second_frame : Game.Frame := Game.frame 200 [] Resume [].

Definition demo_after_start : Game.t :=
  Game.make Snake.init (420, 300) None 0 0 false 12 false.
Definition demo_after_first : Game.t :=
  Game.make (Snake.make (420, 300) [] RIGHT RIGHT true) (420, 300) None 0 10 false 12 false.
Definition demo_after_second : Game.t :=
  Game.make (Snake.make (440, 300) [(420, 300)] RIGHT RIGHT false) (420, 300) None 0 10
            false 12 false.

(** A session in which the food is eaten twice in a row: the first time
    the oracle draws the cell ahead of the snake, the second time the
    cell the head has just left, which is now the first body cell. *)
Definition respawn_first_frame : Game.Frame := Game.frame 100 [] Resume [22; 15].
Definition respawn_second_frame : Game.Frame := Game.frame 200 [] Resume [21; 15].

Definition respawn_after_first : Game.t :=
  Game.make (Snake.make (420, 300) [] RIGHT RIGHT true) (440, 300) None 0 10 false 12 false.
Definition respawn_after_second : Game.t :=
  Game.make (Snake.make (440, 300) [(420, 300)] RIGHT RIGHT true) (420, 300) None 0 20
            false 12 false.

(** Passes of the loop one after the other, as long as it goes on. *)
Fixpoint run_frames (frs : list Game.Frame) (g : Game.t) : option Game.t :=
  match frs with
  | [] => Some g
  | fr :: rest =>
      match Game.tick fr g with
      | Game.Continue g' => run_frames rest g'
      | _ => None
      end
  end.

(** The order the leaderboard is kept in: scores never go up. *)
Definition by_score_desc (a b : Leaderboard.entry) : Prop :=
  Leaderboard.score b <= Leaderboard.score a.

Definition sorted_desc (l : list Leaderboard.entry) : Prop :=
  StronglySorted by_score_desc l.

(** The record a call [add_score(u, sc)] at time [now] appends when the
    identity is new. *)
Definition entry_of (c : string * Z * string) : Leaderboard.entry :=
  Leaderboard.make_entry (fst (fst c)) (snd (fst c)) (snd c).

(** The identity of a call: the name, case folded by [lower]. *)
Definition identity_of (lower : string -> string) (c : string * Z * string) : string :=
  lower (fst (fst c)).

(** Eleven calls with eleven identities, used as an example. *)
Definition eleven_calls : list (string * Z * string) :=
  [("a", 30, "t01"); ("b", 110, "t02"); ("c", 20, "t03"); ("d", 70, "t04");
   ("e", 10, "t05"); ("f", 90, "t06"); ("g", 50, "t07"); ("h", 40, "t08");
   ("i", 100, "t09"); ("j", 60, "t10"); ("k", 80, "t11")]%string.

(** * Further parts of the program *)

(** ** Shape of the snake during a session *)

(** A cell of the grid. *)
Definition aligned (p : Position) : Prop :=
  fst p mod GRID_SIZE = 0 /\ snd p mod GRID_SIZE = 0.

(** A cell that passes the boundary test of the loop. *)
Definition in_window (p : Position) : Prop :=
  0 <= fst p < WIDTH /\ 0 <= snd p < HEIGHT.

(** Every cell is one step away from the next one of the list. *)
Fixpoint trail (cells : list Position) : Prop :=
  match cells with
  | [] => True
  | a :: rest =>
      match rest with
      | [] => True
      | b :: _ => (exists d, a = Snake.step_of d b) /\ trail rest
      end
  end.

(** The first body cell lies right behind the head. *)
Definition neck (sn : Snake.t) : Prop :=
  match Snake.body sn with
  | [] => True
  | b :: _ => Snake.head sn = Snake.step_of (Snake.direction sn) b
  end.

Definition snake_ok (sn : Snake.t) : Prop :=
  NoDup (Snake.head sn :: Snake.body sn) /\
  Forall in_window (Snake.head sn :: Snake.body sn) /\
  Forall aligned (Snake.head sn :: Snake.body sn) /\
  trail (Snake.head sn :: Snake.body sn) /\
  neck sn.
(** The food lies on a cell of the grid, clear of both rectangles. *)
Definition free_cell (p : Position) : Prop :=
  aligned p /\ in_window p /\ hits_forbidden (Food.rect_at p) = false.
(** A session steered into the top wall: the food is drawn far away, the
    snake turns up on the first pass and keeps going. *)
Definition wall_start : Game.t :=
  Game.make Snake.init (0, 580) None 0 0 false 12 false.
Definition wall_frames : list Game.Frame :=
  Game.frame 100 [KEYDOWN K_UP] Resume [] :: repeat (Game.frame 100 [] Resume []) 14.
Definition wall_before : Game.t :=
  Game.make (Snake.make (400, 0) [] UP UP false) (0, 580) None 0 0 false 12 false.
Definition wall_after : Game.t :=
  Game.make (Snake.make (400, -20) [] UP UP false) (0, 580) None 0 0 true 12 false.

(** A session in which the special food has appeared. *)
Definition special_frame : Game.Frame := Game.frame 4000 [] Resume [10; 10; 0; 0].
Definition special_after : Game.t :=
  Game.make (Snake.make (420, 300) [] RIGHT RIGHT false) (0, 580)
            (Some (SpecialFood.make 195 195 (-5) (-5))) 0 0 false 12 false.

(** A state in which the head is about to run into the special food. *)
Definition bite_before : Game.t :=
  Game.make (Snake.make (180, 200) [] RIGHT RIGHT false) (0, 580)
            (Some (SpecialFood.make 200 200 (-5) (-5))) 0 0 false 12 false.
Definition bite_frame : Game.Frame := Game.frame 5000 [] Resume [].
Definition bite_after : Game.t :=
  Game.make (Snake.make (200, 200) [] RIGHT RIGHT true) (0, 580) None 5000 20 false 12 false.
Definition quiet_frames : list Game.Frame :=
  [Game.frame 6000 [] Resume []; Game.frame 8999 [KEYDOWN K_DOWN] Resume []].
(** Whether an event raises the pause flag. *)
Definition pauses (e : Event) : bool :=
  match e with
  | KEYDOWN K_p => true
  | MOUSEBUTTONDOWN pos => Rect.collidepoint Game.pause_button_rect pos
  | _ => false
  end.

Definition is_QUIT (e : Event) : bool :=
  match e with QUIT => true | _ => false end.
(** ** Identities on the leaderboard *)

(** The identity of a record: its user name, case folded by [lower]. *)
Definition identity (lower : string -> string) (e : Leaderboard.entry) : string :=
  lower (Leaderboard.username e).

(** No identity has two records. *)
Definition unique_ids (lower : string -> string) (l : list Leaderboard.entry) : Prop :=
  NoDup (map (identity lower) l).
(** A board with two players, used as an example. *)
Definition two_players : list Leaderboard.entry :=
  [Leaderboard.make_entry "Alice" 80 "t2"; Leaderboard.make_entry "Bob" 60 "t0"]%string.

(** ** Saving the settings *)

(** The file [save_settings] leaves when the write succeeds: the JSON
    object of the two globals (a failing write is caught and reported by
    the source, and not modelled). *)
Definition save_settings (globals : Settings.t) : file Settings.json :=
  Some (Json (Settings.JObject
    [("sound_volume"%string, Settings.sound_volume globals);
     ("game_speed"%string, Settings.game_speed globals)])).

Definition has_key (key : string) (members : list (string * Q)) : bool :=
  existsb (fun kv => String.eqb (fst kv) key) members.
(** ** class Slider *)

Module Slider.

Record t : Type := make { x : Z; y : Z; width : Z; value : Q; dragging : bool }.

(** The events [Slider.handle_event] tells apart. *)
Inductive event : Type :=
| MOUSEBUTTONDOWN (pos : Position)
| MOUSEBUTTONUP
| MOUSEMOTION (pos : Position)
| OTHER.

Definition knob_radius : Z := 10.

(** [self.x + int(self.value * self.width)].  The field [value] holds
    the number assigned to it; the float the program keeps is its rounding
    [Float.fl (value s)] (the number itself when it is a float already),
    and the product of that float and the width is rounded again. *)
Definition knob_x (s : t) : Z :=
  x s + Game.int (Float.fl (Float.fl (value s) * inject_Z (width s)))%Q.

(** The click test on the knob. *)
Definition on_knob (s : t) (pos : Position) : bool :=
  (fst pos - knob_x s) ^ 2 + (snd pos - y s) ^ 2 <=? knob_radius ^ 2.

(** [min(a, b)] and [max(a, b)] as Python evaluates them on two numbers:
    the first argument unless the second is strictly smaller (greater). *)
Definition py_min (a b : Q) : Q := if Qlt_le_dec b a then b else a.
Definition py_max (a b : Q) : Q := if Qlt_le_dec a b then b else a.

(** [Slider.handle_event]; [None] is the [ZeroDivisionError] of a slider
    of width 0 that is dragged. *)
Definition handle_event (s : t) (e : event) : option t :=
  match e with
  | MOUSEBUTTONDOWN pos =>
      Some (if on_knob s pos then make (x s) (y s) (width s) (value s) true else s)
  | MOUSEBUTTONUP => Some (make (x s) (y s) (width s) (value s) false)
  | MOUSEMOTION pos =>
      if dragging s
      then if width s =? 0 then None
           else Some (make (x s) (y s) (width s)
                        (py_max 0 (py_min 1 (inject_Z (fst pos - x s) / inject_Z (width s))))
                        (dragging s))
      else Some s
  | OTHER => Some s
  end.

(** The events of a stay in the settings menu, one after the other. *)
Fixpoint handle_events (evs : list event) (s : t) : option t :=
  match evs with
  | [] => Some s
  | e :: rest =>
      match handle_event s e with
      | Some s1 => handle_events rest s1
      | None => None
      end
  end.

Definition is_down (e : event) : bool :=
  match e with MOUSEBUTTONDOWN _ => true | _ => false end.

End Slider.

(** The speed slider of [settings_menu], as it is built there. *)
Definition speed_slider (game_speed : Q) : Slider.t :=
  Slider.make (WIDTH / 2 - 300 / 2) 300 300 game_speed false.
(** ** username_input *)

Module Username.

(** [str.isspace] on the characters of ASCII: tab to carriage return,
    the four separators 28 to 31, and the space.  Unicode has more white
    space (the no-break space among others); [lstrip], [rstrip] and
    [strip] below are [str.strip] on ASCII text, and what depends on the
    white space of other scripts is stated for any [str.strip]. *)
Definition is_space (c : ascii) : bool :=
  let n := nat_of_ascii c in
  ((9 <=? n)%nat && (n <=? 13)%nat) || ((28 <=? n)%nat && (n <=? 32)%nat).

(** [str.lstrip()], [str.rstrip()] and [str.strip()]. *)
Fixpoint lstrip (s : string) : string :=
  match s with
  | EmptyString => EmptyString
  | String c rest => if is_space c then lstrip rest else s
  end.

Fixpoint rstrip (s : string) : string :=
  match s with
  | EmptyString => EmptyString
  | String c rest =>
      match rstrip rest with
      | EmptyString => if is_space c then EmptyString else String c EmptyString
      | kept => String c kept
      end
  end.

Definition strip (s : string) : string := lstrip (rstrip s).


(** The keys the text box reacts to once it is active. *)
Inductive key : Type :=
| K_RETURN
| K_BACKSPACE
| Typed (unicode : string).


(** [return text.strip() if text.strip() != "" else "Player"], with
    [str.strip] as a parameter. *)
Definition result_with (strip : string -> string) (text : string) : string :=
  if String.eqb (strip text) "" then "Player"%string else strip text.

(** The same on ASCII text. *)
Definition result (text : string) : string := result_with strip text.

Definition first_is_space (s : string) : bool :=
  match s with
  | EmptyString => false
  | String c _ => is_space c
  end.

Fixpoint last_is_space (s : string) : bool :=
  match s with
  | EmptyString => false
  | String c EmptyString => is_space c
  | String _ rest => last_is_space rest
  end.

(** How the input loop ends: a click on the Back button, or RETURN with
    the text typed so far. *)
Inductive ending : Type :=
| Back_clicked
| Entered (text : string).

(** What [username_input] returns, with [str.strip] as a parameter. *)
Definition username_input (strip : string -> string) (e : ending) : string :=
  match e with
  | Back_clicked => "back"%string
  | Entered text => result_with strip text
  end.

(** The test of [main_menu] on that value: [run_game(username)] is called
    unless [username == "back"]. *)
Definition starts_game (username : string) : bool :=
  negb (String.eqb username "back").

End Username.
(** ** Particles *)

(** A particle is the list [[x, y, dx, dy, life]] of floats; the
    particles of a list are objects shared between the list and the copy
    the loop runs over, and each of them is changed in place.  The model
    names the objects by numbers and keeps their contents in a heap.  It
    is stated over any number type with the operations the loop uses. *)
Module Particles.

Section WithNumbers.

Variable F : Type.
Variable add sub : F -> F -> F.
Variable tenth : F.
(** [v <= 0] and [v == w] on numbers. *)
Variable le0 : F -> bool.
Variable eqb : F -> F -> bool.

Record particle : Type := make { px : F; py : F; pdx : F; pdy : F; life : F }.

(** [p[0] += p[2]; p[1] += p[3]; p[4] -= 0.1]. *)
Definition step (p : particle) : particle :=
  make (add (px p) (pdx p)) (add (py p) (pdy p)) (pdx p) (pdy p) (sub (life p) tenth).

(** [==] on two particles: element by element. *)
Definition particle_eqb (p q : particle) : bool :=
  eqb (px p) (px q) && eqb (py p) (py q) && eqb (pdx p) (pdx q) &&
  eqb (pdy p) (pdy q) && eqb (life p) (life q).

Definition heap : Type := nat -> particle.

Definition store (h : heap) (i : nat) (p : particle) : heap :=
  fun j => if Nat.eqb j i then p else h j.

(** [list.remove(p)] for the object [i]: the first element that is the
    object itself or compares equal to it goes; [None] is the
    [ValueError] of a list without such an element. *)
Fixpoint remove (h : heap) (i : nat) (l : list nat) : option (list nat) :=
  match l with
  | [] => None
  | j :: rest =>
      if Nat.eqb j i || particle_eqb (h j) (h i)
      then Some rest
      else option_map (cons j) (remove h i rest)
  end.

(** The body of [for p in particles[:]], over the copy; the state is the
    list itself and the heap. *)
Fixpoint update_loop (copy : list nat) (particles : list nat) (h : heap)
    : option (list nat * heap) :=
  match copy with
  | [] => Some (particles, h)
  | i :: rest =>
      let h1 := store h i (step (h i)) in
      if le0 (life (h1 i))
      then match remove h1 i particles with
           | Some particles1 => update_loop rest particles1 h1
           | None => None
           end
      else update_loop rest particles h1
  end.

(** [update_particles], in [Food], in [SpecialFood] and in [run_game]. *)
Definition update_particles (particles : list nat) (h : heap)
    : option (list nat * heap) :=
  update_loop particles particles h.

(** The particles that outlive an update. *)
Definition survives (h : heap) (i : nat) : bool := negb (le0 (life (step (h i)))).

End WithNumbers.

End Particles.

(** Two particles over the rationals, the first about to fade. *)
Definition two_particles : Particles.heap Q :=
  fun i => match i with
           | O => (Particles.make Q 10 10 1 (-1) 0.1)%Q
           | _ => (Particles.make Q 10 10 1 (-1) 3)%Q
           end.
(** ** countdown *)

Module Countdown.

(** What a pass of the loop draws. *)
Inductive shown : Type :=
| Digit (n : Z)
| Go.

(** [3 - int(elapsed / 1000)]: the quotient of the two integers is a
    float. *)
Definition seconds_left (elapsed : Z) : Z :=
  3 - Game.int (Float.fl (inject_Z elapsed / 1000))%Q.

(** The loop of [countdown]: every call of [pygame.time.get_ticks()]
    takes the next reading of the clock; [go] is [go_start] once "Go!"
    has been displayed.  The result is the reading at which the loop
    breaks, with what was drawn on the way; [None] when the readings run
    out first. *)
Fixpoint loop (readings : list Z) (start_time : Z) (go : option Z)
    : option (Z * list shown) :=
  match readings with
  | [] => None
  | current_time :: rest =>
      let elapsed := current_time - start_time in
      if elapsed <? 3000
      then option_map (fun r => (fst r, Digit (seconds_left elapsed) :: snd r))
                      (loop rest start_time go)
      else
        match rest with
        | [] => None
        | ticks :: rest' =>
            match go with
            | None =>
                option_map (fun r => (fst r, Go :: snd r))
                           (loop rest' start_time (Some ticks))
            | Some go_start =>
                if ticks - go_start >=? 1000
                then Some (ticks, [])
                else option_map (fun r => (fst r, Go :: snd r))
                                (loop rest' start_time go)
            end
        end
  end.

(** [countdown]: the first reading is [start_time]. *)
Definition countdown (readings : list Z) : option (Z * Z * list shown) :=
  match readings with
  | [] => None
  | start_time :: rest =>
      option_map (fun r => (start_time, fst r, snd r)) (loop rest start_time None)
  end.

Definition digit_ok (s : shown) : Prop :=
  match s with
  | Digit n => 1 <= n <= 3
  | Go => True
  end.

End Countdown.

(** * Properties *)

Lemma hits_forbidden_false (l t w h : Z) :
  hits_forbidden (Rect.make l t w h) = false <->
  ~ (l < 780 /\ 740 < l + w /\ t < 60 /\ 20 < t + h) /\
  ~ (l < 150 /\ 0 < l + w /\ t < 50 /\ 0 < t + h).
Proof.
  unfold hits_forbidden, Rect.colliderect, forbidden_pause, forbidden_score, WIDTH; simpl.
  rewrite orb_false_iff, !andb_false_iff, !Z.ltb_ge. lia.
Qed.

Lemma hits_forbidden_true (l t w h : Z) :
  hits_forbidden (Rect.make l t w h) = true <->
  (l < 780 /\ 740 < l + w /\ t < 60 /\ 20 < t + h) \/
  (l < 150 /\ 0 < l + w /\ t < 50 /\ 0 < t + h).
Proof.
  unfold hits_forbidden, Rect.colliderect, forbidden_pause, forbidden_score, WIDTH; simpl.
  rewrite orb_true_iff, !andb_true_iff, !Z.ltb_lt. lia.
Qed.

Lemma bounce_x_spec (s : SpecialFood.t) :
  let 'SpecialFood.make x y dx dy := s in
  ((x < 0 \/ 760 < x) /\ SpecialFood.bounce_x s = SpecialFood.make (x - dx) y (- dx) dy) \/
  (0 <= x <= 760 /\ SpecialFood.bounce_x s = s).
Proof.
  destruct s as [x y dx dy]. unfold SpecialFood.bounce_x, WIDTH, GRID_SIZE.
  cbn [SpecialFood.x SpecialFood.y SpecialFood.dx SpecialFood.dy].
  destruct (Z.ltb_spec x 0); [left; split; [lia | reflexivity] |].
  rewrite Z.gtb_ltb, orb_false_l.
  destruct (Z.ltb_spec (800 - 2 * 20) x); [left | right]; (split; [lia | reflexivity]).
Qed.

Lemma bounce_y_spec (s : SpecialFood.t) :
  let 'SpecialFood.make x y dx dy := s in
  ((y < 0 \/ 580 < y) /\ SpecialFood.bounce_y s = SpecialFood.make x (y - dy) dx (- dy)) \/
  (0 <= y <= 580 /\ SpecialFood.bounce_y s = s).
Proof.
  destruct s as [x y dx dy]. unfold SpecialFood.bounce_y, HEIGHT, GRID_SIZE.
  cbn [SpecialFood.x SpecialFood.y SpecialFood.dx SpecialFood.dy].
  destruct (Z.ltb_spec y 0); [left; split; [lia | reflexivity] |].
  rewrite Z.gtb_ltb, orb_false_l.
  destruct (Z.ltb_spec (600 - 20) y); [left | right]; (split; [lia | reflexivity]).
Qed.

Lemma escape_spec (s : SpecialFood.t) :
  let 'SpecialFood.make x y dx dy := s in
  (hits_forbidden (SpecialFood.get_rect s) = true /\
   SpecialFood.escape s = SpecialFood.make (x - dx) (y - dy) (- dx) (- dy)) \/
  (hits_forbidden (SpecialFood.get_rect s) = false /\ SpecialFood.escape s = s).
Proof.
  destruct s as [x y dx dy]. unfold SpecialFood.escape.
  destruct (hits_forbidden _); [left | right]; split; reflexivity.
Qed.

Lemma SpecialFood_update_Inv (s : SpecialFood.t) :
  SpecialFoodInv.Inv s -> SpecialFoodInv.Inv (SpecialFood.update s).
Proof.
  destruct s as [x y dx dy].
  unfold SpecialFoodInv.Inv, SpecialFoodInv.lattice, SpecialFoodInv.clear,
    SpecialFoodInv.outward_safe, SpecialFood.speeds, SpecialFood.update,
    SpecialFood.advance.
  cbn [SpecialFood.x SpecialFood.y SpecialFood.dx SpecialFood.dy].
  intros (Hdx & Hdy & Hl & Hc & Ho).
  apply hits_forbidden_false in Hc.
  unfold WIDTH, HEIGHT, GRID_SIZE in *.
  match goal with |- context [SpecialFood.bounce_x ?a] =>
    destruct (bounce_x_spec a) as [[Bx ->] | [Bx ->]] end;
  match goal with |- context [SpecialFood.bounce_y ?a] =>
    destruct (bounce_y_spec a) as [[By ->] | [By ->]] end;
  match goal with |- context [SpecialFood.escape ?a] =>
    destruct (escape_spec a) as [[Hh ->] | [Hh ->]] end;
  unfold SpecialFood.get_rect, GRID_SIZE in *;
  cbn [SpecialFood.x SpecialFood.y SpecialFood.dx SpecialFood.dy] in *;
  rewrite ?hits_forbidden_false in *; rewrite ?hits_forbidden_true in *.
  all: speed_cases Hdx; speed_cases Hdy; simpl Z.abs in *; simpl In.
  all: Z.div_mod_to_equations; lia.
Qed.

(** ** The random oracle stays in range *)

Lemma randrange_cells (stop r : Z) :
  0 < stop ->
  exists k, 0 <= k < (stop + 19) / 20 /\ Random.randrange 0 stop GRID_SIZE r = 20 * k.
Proof.
  intros Hs. unfold Random.randrange, Random.range_len, GRID_SIZE.
  replace (stop - 0 + 20 - 1) with (stop + 19) by lia.
  assert (0 < (stop + 19) / 20) by (apply Z.div_str_pos; lia).
  rewrite Z.max_r by lia.
  exists (r mod ((stop + 19) / 20)). split; [apply Z.mod_pos_bound; lia | lia].
Qed.

Lemma choice_speeds (r : Z) :
  In (Random.choice SpecialFood.speeds r) SpecialFood.speeds.
Proof.
  change (Random.choice SpecialFood.speeds r)
    with (nth (Z.to_nat (r mod 4)) SpecialFood.speeds 0).
  unfold SpecialFood.speeds.
  pose proof (Z.mod_pos_bound r 4 ltac:(lia)) as Hb.
  assert (Hk : r mod 4 = 0 \/ r mod 4 = 1 \/ r mod 4 = 2 \/ r mod 4 = 3) by lia.
  destruct Hk as [-> | [-> | [-> | ->]]]; simpl; auto.
Qed.

(** ** SpecialFood: spawning establishes the invariant *)

Lemma SpecialFood_spawn_step (rx ry : Z) (rest : list Z) :
  SpecialFood.spawn (rx :: ry :: rest) =
    if hits_forbidden (Rect.make (fst (SpecialFood.candidate rx ry))
                                 (snd (SpecialFood.candidate rx ry))
                                 (2 * GRID_SIZE) GRID_SIZE)
    then SpecialFood.spawn rest
    else Some (SpecialFood.candidate rx ry, rest).
Proof. reflexivity. Qed.

Lemma SpecialFood_spawn_spec (entropy : list Z) :
  forall p rest, SpecialFood.spawn entropy = Some (p, rest) ->
  hits_forbidden (Rect.make (fst p) (snd p) (2 * GRID_SIZE) GRID_SIZE) = false /\
  (exists i, 0 <= i < 38 /\ fst p = 20 * i) /\
  (exists j, 0 <= j < 29 /\ snd p = 20 * j).
Proof.
  induction entropy as [entropy IH] using (well_founded_induction
    (Wf_nat.well_founded_ltof _ (@List.length Z))).
  intros p rest. destruct entropy as [| rx [| ry tl]]; try discriminate.
  rewrite SpecialFood_spawn_step.
  destruct (hits_forbidden _) eqn:Hh.
  - apply IH. unfold Wf_nat.ltof. simpl. lia.
  - intros [= <- <-]. split; [exact Hh |].
    unfold SpecialFood.candidate; cbn [fst snd]. split.
    + destruct (randrange_cells (WIDTH - 2 * GRID_SIZE) rx) as (k & Hk & ->);
        [reflexivity |]. exists k. split; [exact Hk | reflexivity].
    + destruct (randrange_cells (HEIGHT - GRID_SIZE) ry) as (k & Hk & ->);
        [reflexivity |]. exists k. split; [exact Hk | reflexivity].
Qed.

Lemma SpecialFood_init_Inv (entropy : list Z) (s : SpecialFood.t) (rest : list Z) :
  SpecialFood.init entropy = Some (s, rest) -> SpecialFoodInv.Inv s.
Proof.
  unfold SpecialFood.init.
  destruct (SpecialFood.spawn entropy) as [[p tl] |] eqn:Hs; [| discriminate].
  destruct tl as [| rdx [| rdy tl]]; try discriminate.
  intros [= <- <-].
  destruct (SpecialFood_spawn_spec _ _ _ Hs) as (Hc & (i & Hi & Hx) & (j & Hj & Hy)).
  pose proof (choice_speeds rdx) as Hdx. pose proof (choice_speeds rdy) as Hdy.
  unfold SpecialFoodInv.Inv, SpecialFoodInv.lattice, SpecialFoodInv.clear,
    SpecialFoodInv.outward_safe, SpecialFood.get_rect.
  cbn [SpecialFood.x SpecialFood.y SpecialFood.dx SpecialFood.dy].
  rewrite Hx, Hy in *. unfold WIDTH, HEIGHT, GRID_SIZE in *.
  repeat split; try assumption; try lia.
  - revert Hdx. generalize (Random.choice SpecialFood.speeds rdx). intros d Hd.
    speed_cases Hd; simpl Z.abs; Z.div_mod_to_equations; lia.
  - revert Hdy. generalize (Random.choice SpecialFood.speeds rdy). intros d Hd.
    speed_cases Hd; simpl Z.abs; Z.div_mod_to_equations; lia.
Qed.

Lemma SpecialFood_reachable_Inv (s : SpecialFood.t) :
  SpecialFood.reachable s -> SpecialFoodInv.Inv s.
Proof.
  induction 1 as [entropy s rest Hinit | s _ IH].
  - exact (SpecialFood_init_Inv _ _ _ Hinit).
  - exact (SpecialFood_update_Inv _ IH).
Qed.

(** C2. For every special food state reachable from a spawn (any accepted
    position, any velocity drawn from {-5,-4,4,5}), the footprint after
    [SpecialFood.update] intersects neither the pause rectangle nor the
    score rectangle. *)
Theorem C2_update_clears_exclusions (s : SpecialFood.t) :
  SpecialFood.reachable s ->
  Rect.colliderect (SpecialFood.get_rect (SpecialFood.update s)) forbidden_pause = false /\
  Rect.colliderect (SpecialFood.get_rect (SpecialFood.update s)) forbidden_score = false.
Proof.
  intros Hr.
  pose proof (SpecialFood_update_Inv _ (SpecialFood_reachable_Inv _ Hr)) as (_ & _ & _ & Hc & _).
  unfold SpecialFoodInv.clear, hits_forbidden in Hc.
  apply orb_false_iff in Hc. exact Hc.
Qed.

(** ** Snake.move *)

Lemma commit_direction (s : Snake.t) :
  Snake.direction (Snake.commit s) =
    if Direction_eqb (Snake.new_direction s) (opposite (Snake.direction s))
    then Snake.direction s
    else Snake.new_direction s.
Proof.
  destruct s as [h b d nd g]; destruct d, nd; reflexivity.
Qed.

Lemma commit_frame (s : Snake.t) :
  Snake.commit s =
    Snake.make (Snake.head s) (Snake.body s) (Snake.direction (Snake.commit s))
               (Snake.new_direction s) (Snake.grow s).
Proof.
  destruct s as [h b d nd g]; destruct d, nd; reflexivity.
Qed.

Lemma move_unfold (s : Snake.t) :
  Snake.move s =
    Snake.make
      (Snake.step_of (Snake.direction (Snake.commit s)) (Snake.head s))
      (if Snake.grow s then Snake.head s :: Snake.body s
       else removelast (Snake.head s :: Snake.body s))
      (Snake.direction (Snake.commit s))
      (Snake.new_direction s)
      false.
Proof.
  unfold Snake.move. rewrite (commit_frame s).
  generalize (Snake.direction (Snake.commit s)). intros d.
  destruct s as [h b d0 nd g]. unfold Snake.shift_body, Snake.move_head.
  cbn [Snake.head Snake.body Snake.direction Snake.new_direction Snake.grow].
  destruct g; reflexivity.
Qed.

Lemma removelast_cons_length {A : Type} (a : A) (l : list A) :
  List.length (removelast (a :: l)) = List.length l.
Proof.
  revert a. induction l as [| b l IH]; intros a; [reflexivity |].
  change (removelast (a :: b :: l)) with (a :: removelast (b :: l)).
  cbn [List.length]. f_equal. apply IH.
Qed.

(** C3. A buffered direction that is the exact opposite of the current
    one is dropped by the next [Snake.move]: the direction is kept and
    the head advances one cell along it.  In particular, buffering LEFT
    while moving RIGHT leaves the snake moving RIGHT, the head one
    [GRID_SIZE] further to the right. *)
Theorem C3_opposite_direction_ignored :
  (forall s : Snake.t,
     let s' := Snake.move (Snake.set_new_direction (opposite (Snake.direction s)) s) in
     Snake.direction s' = Snake.direction s /\
     Snake.head s' = Snake.step_of (Snake.direction s) (Snake.head s)) /\
  (forall (h : Position) (b : list Position) (nd : Direction) (g : bool),
     let s' := Snake.move (Snake.set_new_direction LEFT (Snake.make h b RIGHT nd g)) in
     Snake.direction s' = RIGHT /\
     Snake.head s' = (fst h + GRID_SIZE, snd h)).
Proof.
  split.
  - intros s s'. subst s'. rewrite move_unfold, commit_direction.
    destruct s as [h b d nd g]; destruct d; simpl; auto.
  - intros h b nd g s'. subst s'. rewrite move_unfold, commit_direction.
    simpl. auto.
Qed.

(** C4, the counterexample: on the snake a session starts with (empty
    body, nothing to grow) the body after [move] is empty, not the
    previous head followed by the previous body minus its last cell. *)
Lemma C4_empty_body_counterexample :
  ~ (forall s : Snake.t,
       Snake.body (Snake.move s) =
         if Snake.grow s then Snake.head s :: Snake.body s
         else Snake.head s :: removelast (Snake.body s)).
Proof.
  intros H. specialize (H Snake.init). discriminate H.
Qed.

(** C4, as amended.  One call of [Snake.move] commits the buffered
    direction unless it is the opposite of the current one, pushes the
    old head on the body, drops the last cell of the pushed body when not
    growing and otherwise clears the flag, and moves the head one
    [GRID_SIZE] step in the committed direction.  The body afterwards is
    the old head followed by the whole old body when growing; when not
    growing it is the old head followed by the old body minus its last
    cell if the old body was not empty, and it stays empty if the old
    body was empty. *)
Theorem C4_move_steps (s : Snake.t) :
  let d := if Direction_eqb (Snake.new_direction s) (opposite (Snake.direction s))
           then Snake.direction s else Snake.new_direction s in
  Snake.direction (Snake.move s) = d /\
  Snake.head (Snake.move s) = Snake.step_of d (Snake.head s) /\
  Snake.new_direction (Snake.move s) = Snake.new_direction s /\
  Snake.grow (Snake.move s) = false /\
  Snake.body (Snake.move s) =
    (if Snake.grow s then Snake.head s :: Snake.body s
     else removelast (Snake.head s :: Snake.body s)) /\
  Snake.body (Snake.move s) =
    (if Snake.grow s then Snake.head s :: Snake.body s
     else match Snake.body s with
          | [] => []
          | _ :: _ => Snake.head s :: removelast (Snake.body s)
          end) /\
  List.length (Snake.body (Snake.move s)) =
    (List.length (Snake.body s) + if Snake.grow s then 1 else 0)%nat.
Proof.
  intros d. subst d. rewrite move_unfold, <- commit_direction.
  cbn [Snake.head Snake.body Snake.direction Snake.new_direction Snake.grow].
  repeat split.
  destruct (Snake.grow s).
  - simpl. lia.
  - rewrite removelast_cons_length. lia.
Qed.

(** ** The event loop and the direction buffer *)

Lemma handle_events_arrows (ds : list Direction) (d : Direction) (sn : Snake.t) :
  Game.handle_events (map (fun k => KEYDOWN (arrow k)) (ds ++ [d])) (sn, false) =
    Next (Snake.set_new_direction d sn, false).
Proof.
  revert sn. induction ds as [| k ds IH]; intros sn.
  - destruct d; reflexivity.
  - cbn [app map Game.handle_events].
    replace (Game.handle_event (sn, false) (KEYDOWN (arrow k)))
      with (Next (Snake.set_new_direction k sn, false)) by (destruct k; reflexivity).
    rewrite IH. reflexivity.
Qed.

(** C9. The direction buffer is one slot: while the game is not paused
    every arrow key overwrites [new_direction], whatever the current
    direction and whatever was buffered, and the reversal test runs only
    in [Snake.move].  A snake moving RIGHT that receives UP then LEFT
    before the next move ends with LEFT buffered; the move rejects it and
    the snake goes on RIGHT, although UP alone would have turned it. *)
Theorem C9_single_slot_buffer :
  (forall (sn : Snake.t) (d : Direction),
     Game.handle_event (sn, false) (KEYDOWN (arrow d)) =
       Next (Snake.set_new_direction d sn, false)) /\
  (forall (sn : Snake.t) (ds : list Direction) (d : Direction),
     Game.handle_events (map (fun k => KEYDOWN (arrow k)) (ds ++ [d])) (sn, false) =
       Next (Snake.set_new_direction d sn, false)) /\
  (forall (h : Position) (b : list Position) (nd : Direction) (g : bool),
     let sn := Snake.make h b RIGHT nd g in
     Game.handle_events [KEYDOWN K_UP; KEYDOWN K_LEFT] (sn, false) =
       Next (Snake.set_new_direction LEFT sn, false) /\
     Snake.direction (Snake.move (Snake.set_new_direction LEFT sn)) = RIGHT /\
     Snake.head (Snake.move (Snake.set_new_direction LEFT sn)) = (fst h + GRID_SIZE, snd h) /\
     Snake.direction (Snake.move (Snake.set_new_direction UP sn)) = UP).
Proof.
  split; [| split].
  - intros sn d. destruct d; reflexivity.
  - intros sn ds d. apply handle_events_arrows.
  - intros h b nd g sn. subst sn. repeat split.
    + rewrite move_unfold, commit_direction. reflexivity.
    + rewrite move_unfold, commit_direction. reflexivity.
    + rewrite move_unfold, commit_direction. reflexivity.
Qed.

(** ** Food.spawn *)

Lemma Food_spawn_step (rx ry : Z) (rest : list Z) :
  Food.spawn (rx :: ry :: rest) =
    if hits_forbidden (Food.rect_at (Food.candidate rx ry))
    then Food.spawn rest
    else Some (Food.candidate rx ry, rest).
Proof. reflexivity. Qed.

Lemma Food_spawn_spec (entropy : list Z) :
  forall p rest, Food.spawn entropy = Some (p, rest) ->
  hits_forbidden (Food.rect_at p) = false /\
  (exists i, 0 <= i < 40 /\ fst p = 20 * i) /\
  (exists j, 0 <= j < 30 /\ snd p = 20 * j).
Proof.
  induction entropy as [entropy IH] using (well_founded_induction
    (Wf_nat.well_founded_ltof _ (@List.length Z))).
  intros p rest. destruct entropy as [| rx [| ry tl]]; try discriminate.
  rewrite Food_spawn_step.
  destruct (hits_forbidden _) eqn:Hh.
  - apply IH. unfold Wf_nat.ltof. simpl. lia.
  - intros [= <- <-]. split; [exact Hh |].
    unfold Food.candidate; cbn [fst snd]. split.
    + destruct (randrange_cells WIDTH rx) as (k & Hk & ->);
        [reflexivity |]. exists k. split; [exact Hk | reflexivity].
    + destruct (randrange_cells HEIGHT ry) as (k & Hk & ->);
        [reflexivity |]. exists k. split; [exact Hk | reflexivity].
Qed.

Lemma Food_candidate_cell (i j : Z) :
  0 <= i < 40 -> 0 <= j < 30 -> Food.candidate i j = (20 * i, 20 * j).
Proof.
  intros Hi Hj. unfold Food.candidate, Random.randrange.
  change (Random.range_len 0 WIDTH GRID_SIZE) with 40.
  change (Random.range_len 0 HEIGHT GRID_SIZE) with 30.
  rewrite !Z.mod_small by lia. reflexivity.
Qed.

Lemma demo_reaches_first : Game.reaches 0 demo_after_first.
Proof.
  assert (H0 : Game.reaches 0 demo_after_start).
  { apply Game.reaches_start with (game_speed := (1 # 10)%Q) (ticks := 0)
      (entropy := [21; 15]). reflexivity. }
  exact (Game.reaches_tick 0 demo_after_start demo_first_frame demo_after_first
           H0 eq_refl).
Qed.

Lemma demo_reaches_second : Game.reaches 0 demo_after_second.
Proof.
  exact (Game.reaches_tick 0 demo_after_first demo_second_frame demo_after_second
           demo_reaches_first eq_refl).
Qed.

Lemma respawn_reaches_first : Game.reaches 0 respawn_after_first.
Proof.
  assert (H0 : Game.reaches 0 demo_after_start).
  { apply Game.reaches_start with (game_speed := (1 # 10)%Q) (ticks := 0)
      (entropy := [21; 15]). reflexivity. }
  exact (Game.reaches_tick 0 demo_after_start respawn_first_frame respawn_after_first
           H0 eq_refl).
Qed.

(** When the head is on the food, the food goes to the first free cell
    the oracle draws, whatever the snake is and wherever it lies; the
    snake is marked to grow and the score goes up by 10. *)
Lemma food_collision_respawn (sn : Snake.t) (score i j : Z) (rest : list Z) :
  0 <= i < 40 -> 0 <= j < 30 ->
  hits_forbidden (Food.rect_at (20 * i, 20 * j)) = false ->
  Game.food_collision sn (Snake.head sn) score (i :: j :: rest) =
    Next (Snake.set_grow true sn, (20 * i, 20 * j), score + 10).
Proof.
  intros Hi Hj Hfree. unfold Game.food_collision.
  replace (position_eqb (Snake.head sn) (Snake.head sn)) with true.
  - rewrite Food_spawn_step, (Food_candidate_cell i j Hi Hj), Hfree. reflexivity.
  - symmetry. destruct (Snake.head sn) as [a b]. unfold position_eqb. simpl.
    rewrite !Z.eqb_refl. reflexivity.
Qed.

(** C10. [Food.spawn] tests a candidate against the two exclusion
    rectangles only.  Whatever it returns is a cell of the grid (both
    coordinates multiples of [GRID_SIZE], inside the window) clear of the
    rectangles; every such cell is returned when the oracle draws it, so
    the loop ends as soon as a free cell is drawn.  The snake plays no
    part: when the head is on the food, the food respawns on the free
    cell the oracle draws, for every snake and every such cell, so also
    when the cell is the one of the head or of a body segment.  Both happen in sessions: there is a pass of the loop in
    which the snake eats the food (the score goes up by 10) and the cell
    [Food.spawn] returns for the new food is the cell of the head, and a
    pass in which it is a body cell. *)
Theorem C10_food_spawn :
  (forall (entropy : list Z) (p : Position) (rest : list Z),
     Food.spawn entropy = Some (p, rest) ->
     fst p mod GRID_SIZE = 0 /\ snd p mod GRID_SIZE = 0 /\
     0 <= fst p /\ fst p + GRID_SIZE <= WIDTH /\
     0 <= snd p /\ snd p + GRID_SIZE <= HEIGHT /\
     Rect.colliderect (Food.rect_at p) forbidden_pause = false /\
     Rect.colliderect (Food.rect_at p) forbidden_score = false) /\
  (forall (i j : Z) (rest : list Z),
     0 <= i < 40 -> 0 <= j < 30 ->
     hits_forbidden (Food.rect_at (20 * i, 20 * j)) = false ->
     Food.spawn (i :: j :: rest) = Some ((20 * i, 20 * j), rest)) /\
  (forall (sn : Snake.t) (score i j : Z) (rest : list Z),
     0 <= i < 40 -> 0 <= j < 30 ->
     hits_forbidden (Food.rect_at (20 * i, 20 * j)) = false ->
     Game.food_collision sn (Snake.head sn) score (i :: j :: rest) =
       Next (Snake.set_grow true sn, (20 * i, 20 * j), score + 10)) /\
  (exists (g : Game.t) (fr : Game.Frame) (g' : Game.t) (rest : list Z),
     Game.reachable g /\ Game.tick fr g = Game.Continue g' /\
     Snake.head (Game.snake g') = Game.food g /\
     Game.score g' = Game.score g + 10 /\
     Food.spawn (Game.entropy fr) = Some (Game.food g', rest) /\
     Game.food g' = Snake.head (Game.snake g')) /\
  (exists (g : Game.t) (fr : Game.Frame) (g' : Game.t) (rest : list Z),
     Game.reachable g /\ Game.tick fr g = Game.Continue g' /\
     Snake.head (Game.snake g') = Game.food g /\
     Game.score g' = Game.score g + 10 /\
     Food.spawn (Game.entropy fr) = Some (Game.food g', rest) /\
     In (Game.food g') (Snake.body (Game.snake g'))).
Proof.
  split; [| split; [| split; [| split]]].
  - intros entropy p rest Hs.
    destruct (Food_spawn_spec _ _ _ Hs) as (Hc & (i & Hi & Hx) & (j & Hj & Hy)).
    unfold hits_forbidden in Hc. apply orb_false_iff in Hc. destruct Hc as [Hp Hsc].
    rewrite Hx, Hy. unfold GRID_SIZE, WIDTH, HEIGHT.
    repeat split; try assumption; try lia.
    + rewrite Z.mul_comm. apply Z.mod_mul. lia.
    + rewrite Z.mul_comm. apply Z.mod_mul. lia.
  - intros i j rest Hi Hj Hfree. rewrite Food_spawn_step.
    rewrite (Food_candidate_cell i j Hi Hj), Hfree. reflexivity.
  - exact food_collision_respawn.
  - exists demo_after_start, demo_first_frame, demo_after_first, [].
    split; [exists 0%nat; apply Game.reaches_start with (game_speed := (1 # 10)%Q)
                            (ticks := 0) (entropy := [21; 15]); reflexivity |].
    repeat split.
  - exists respawn_after_first, respawn_second_frame, respawn_after_second, [].
    split; [exists 0%nat; exact respawn_reaches_first |].
    repeat split. simpl. left. reflexivity.
Qed.

(** A concrete draw for C10: the oracle values 21 and 15 give the cell
    (420, 300), one step to the right of the starting head. *)
Lemma C10_food_spawn_witness :
  Food.spawn [21; 15] = Some ((420, 300), []) /\
  420 mod GRID_SIZE = 0 /\ 300 mod GRID_SIZE = 0 /\
  0 <= 420 /\ 420 + GRID_SIZE <= WIDTH /\
  0 <= 300 /\ 300 + GRID_SIZE <= HEIGHT /\
  Rect.colliderect (Food.rect_at (420, 300)) forbidden_pause = false /\
  Rect.colliderect (Food.rect_at (420, 300)) forbidden_score = false.
Proof.
  split; [reflexivity |].
  exact (proj1 C10_food_spawn [21; 15] (420, 300) [] eq_refl).
Defined.

(** ** Score and body length along a session *)

Lemma handle_event_frame (sn sn' : Snake.t) (p p' : bool) (e : Event) :
  Game.handle_event (sn, p) e = Next (sn', p') ->
  Snake.body sn' = Snake.body sn /\ Snake.grow sn' = Snake.grow sn.
Proof.
  destruct e as [| k | pos |]; simpl; try discriminate.
  - destruct p, k; simpl; intros [= <- <-]; auto.
  - intros [= <- <-]; auto.
  - intros [= <- <-]; auto.
Qed.

Lemma handle_events_frame (evs : list Event) :
  forall sn p sn' p',
  Game.handle_events evs (sn, p) = Next (sn', p') ->
  Snake.body sn' = Snake.body sn /\ Snake.grow sn' = Snake.grow sn.
Proof.
  induction evs as [| e evs IH]; intros sn p sn' p'.
  - simpl. intros [= <- <-]. auto.
  - cbn [Game.handle_events].
    destruct (Game.handle_event (sn, p) e) as [[sn1 p1] | | |] eqn:He; try discriminate.
    intros Hrest. destruct (handle_event_frame _ _ _ _ _ He) as [Hb Hg].
    destruct (IH _ _ _ _ Hrest) as [Hb' Hg']. split; congruence.
Qed.

Lemma move_segments (sn : Snake.t) :
  Snake.grow (Snake.move sn) = false /\
  Z.of_nat (List.length (Snake.body (Snake.move sn))) =
    Z.of_nat (List.length (Snake.body sn)) + (if Snake.grow sn then 1 else 0).
Proof.
  rewrite move_unfold. cbn [Snake.grow Snake.body]. split; [reflexivity |].
  destruct (Snake.grow sn).
  - cbn [List.length]. lia.
  - rewrite removelast_cons_length. lia.
Qed.

(** What the loop body has done once the normal food is dealt with. *)
Lemma upto_food_spec (fr : Game.Frame) (g g1 : Game.t) :
  Game.upto_food fr g = Next g1 ->
  Game.current_fps g1 = Game.current_fps g /\
  ((Game.segments g1 = Game.segments g /\ Game.score g1 = Game.score g /\
    Snake.grow (Game.snake g1) = false) \/
   (Game.segments g1 = Game.segments g + 1 /\ Game.score g1 = Game.score g + 10 /\
    Snake.grow (Game.snake g1) = true)).
Proof.
  unfold Game.upto_food.
  destruct (Game.spawn_special fr g) as [[sf rest] | | |]; try discriminate.
  destruct (Game.handle_events (Game.events fr) (Game.snake g, Game.is_paused g))
    as [[sn paused] | | |] eqn:Hev; try discriminate.
  destruct (Game.pause fr paused) as [paused1 | | |]; try discriminate.
  destruct (handle_events_frame _ _ _ _ _ Hev) as [Hb Hg].
  destruct (move_segments sn) as [Hmg Hml]. rewrite Hb, Hg in Hml.
  unfold Game.food_collision.
  destruct (position_eqb _ _).
  - destruct (Food.spawn rest) as [[p tl] |]; try discriminate.
    intros [= <-]. split; [reflexivity |]. right.
    unfold Game.segments. cbn [Game.snake Game.score Snake.set_grow Snake.body Snake.grow].
    repeat split. lia.
  - intros [= <-]. split; [reflexivity |]. left.
    unfold Game.segments. cbn [Game.snake Game.score].
    rewrite Hmg. repeat split. lia.
Qed.

(** The four ways a pass changes the score, with the segments it adds. *)
Lemma tick_account (fr : Game.Frame) (g g' : Game.t) :
  Game.tick fr g = Game.Continue g' \/ Game.tick fr g = Game.Break g' ->
  Game.current_fps g' = Game.current_fps g /\
  ((Game.segments g' = Game.segments g /\ Game.score g' = Game.score g /\
    Game.takes_special fr g = false) \/
   (Game.segments g' = Game.segments g + 1 /\ Game.score g' = Game.score g + 10 /\
    Game.takes_special fr g = false) \/
   (Game.segments g' = Game.segments g + 1 /\ Game.score g' = Game.score g + 20 /\
    Game.takes_special fr g = true) \/
   (Game.segments g' = Game.segments g + 1 /\ Game.score g' = Game.score g + 30 /\
    Game.takes_special fr g = true)).
Proof.
  unfold Game.tick, Game.takes_special.
  destruct (Game.upto_food fr g) as [g1 | | |] eqn:Hu;
    try (intros [H | H]; discriminate H).
  destruct (upto_food_spec _ _ _ Hu) as [Hfps Hcase].
  intros Hend.
  assert (Hg' : Game.segments g' = Game.segments (Game.special_collision (Game.current_time fr) g1) /\
                Game.score g' = Game.score (Game.special_collision (Game.current_time fr) g1) /\
                Game.current_fps g' = Game.current_fps (Game.special_collision (Game.current_time fr) g1)).
  { destruct (Game.dead _); destruct Hend as [H | H]; try discriminate H;
      injection H as <-; repeat split. }
  destruct Hg' as (-> & -> & ->).
  unfold Game.special_collision.
  destruct (Game.special_food g1) as [sf |].
  - destruct (Game.special_hit (Game.snake g1) sf).
    + unfold Game.segments in *.
      cbn [Game.snake Game.score Game.current_fps Snake.set_grow Snake.body Snake.grow].
      unfold SpecialFood.points. split; [exact Hfps |].
      destruct Hcase as [(Hs & Hsc & Hgr) | (Hs & Hsc & Hgr)]; rewrite Hgr in Hs.
      * right; right; left. repeat split; lia.
      * right; right; right. repeat split; lia.
    + split; [exact Hfps |].
      destruct Hcase as [(Hs & Hsc & _) | (Hs & Hsc & _)]; [left | right; left]; auto.
  - split; [exact Hfps |].
    destruct Hcase as [(Hs & Hsc & _) | (Hs & Hsc & _)]; [left | right; left]; auto.
Qed.

Lemma start_account (game_speed : Q) (ticks : Z) (entropy : list Z) (g : Game.t) :
  Game.start game_speed ticks entropy = Some g ->
  Game.segments g = 0 /\ Game.score g = 0 /\ Game.current_fps g = Game.fps_of game_speed.
Proof.
  unfold Game.start. destruct (Food.spawn entropy) as [[p rest] |]; [| discriminate].
  intros [= <-]. repeat split.
Qed.

(** C1, the counterexample: right after the first food is eaten the score
    is 10 and the body is still empty. *)
Lemma C1_body_length_counterexample :
  ~ (forall g : Game.t, Game.reachable g ->
       10 * Z.of_nat (List.length (Snake.body (Game.snake g))) = Game.score g).
Proof.
  intros H. specialize (H demo_after_first (ex_intro _ 0%nat demo_reaches_first)).
  discriminate H.
Qed.

(** C1, as amended.  In every state of a running session, ten times the
    number of body segments, counting the segment a pending grow flag
    stands for, is at most the score; the two are equal as long as no
    special food has been taken.  With [n] special foods taken the score
    lies between [10 * (segments + n)] and [10 * segments + 20 * n]. *)
Theorem C1_segments_and_score (n : nat) (g : Game.t) :
  Game.reaches n g ->
  10 * Game.segments g <= Game.score g /\
  (n = 0%nat -> 10 * Game.segments g = Game.score g) /\
  10 * (Game.segments g + Z.of_nat n) <= Game.score g <=
    10 * Game.segments g + 20 * Z.of_nat n.
Proof.
  intros Hr.
  assert (Hb : 10 * (Game.segments g + Z.of_nat n) <= Game.score g <=
               10 * Game.segments g + 20 * Z.of_nat n).
  { induction Hr as [speed ticks entropy g Hs | n g fr g' _ IH Ht].
    - destruct (start_account _ _ _ _ Hs) as (-> & -> & _). simpl. lia.
    - destruct (tick_account fr g g' (or_introl Ht)) as [_ Hc].
      destruct Hc as [(-> & -> & ->) | [(-> & -> & ->) | [(-> & -> & ->) | (-> & -> & ->)]]];
        lia. }
  repeat split; lia.
Qed.

(** A session for C1: the state right after the first food is eaten. *)
Lemma C1_segments_and_score_witness :
  Game.reaches 0 demo_after_first /\
  10 * Game.segments demo_after_first <= Game.score demo_after_first /\
  (0%nat = 0%nat -> 10 * Game.segments demo_after_first = Game.score demo_after_first) /\
  10 * (Game.segments demo_after_first + Z.of_nat 0) <= Game.score demo_after_first <=
    10 * Game.segments demo_after_first + 20 * Z.of_nat 0.
Proof.
  split; [exact demo_reaches_first |].
  exact (C1_segments_and_score 0 demo_after_first demo_reaches_first).
Defined.

(** A special food for C2: spawned at (200, 200) with velocity (-5, -5). *)
Lemma C2_update_clears_exclusions_witness :
  SpecialFood.reachable (SpecialFood.make 200 200 (-5) (-5)) /\
  Rect.colliderect
    (SpecialFood.get_rect (SpecialFood.update (SpecialFood.make 200 200 (-5) (-5))))
    forbidden_pause = false /\
  Rect.colliderect
    (SpecialFood.get_rect (SpecialFood.update (SpecialFood.make 200 200 (-5) (-5))))
    forbidden_score = false.
Proof.
  assert (H : SpecialFood.reachable (SpecialFood.make 200 200 (-5) (-5))).
  { apply SpecialFood.reach_init with (entropy := [10; 10; 0; 0]) (rest := []).
    reflexivity. }
  split; [exact H |].
  exact (C2_update_clears_exclusions (SpecialFood.make 200 200 (-5) (-5)) H).
Defined.

(** ** Reading the persisted files *)

Lemma load_settings_total (globals : Settings.t) (f : file Settings.json) :
  exists s, Settings.load_settings globals f = Ok s.
Proof.
  unfold Settings.load_settings.
  destruct f as [[| [members |]] |]; cbn; eauto.
  destruct (find _ members); cbn; destruct (find _ members); cbn; eauto.
Qed.

(** C7.  [load_settings] never raises: without a file it sets the
    defaults, and on a file that does not parse (or does not hold an
    object) it leaves the settings as they are, which at start-up are the
    defaults.  [Leaderboard.load] gives the empty list when the file is
    missing, but on a file that does not parse the [JSONDecodeError] of
    [json.load] is not caught: only [FileNotFoundError] is. *)
Theorem C7_load_failures :
  Leaderboard.load (Some Garbage) = Raise JSONDecodeError /\
  Leaderboard.load None = Ok [] /\
  (forall (globals : Settings.t) (f : file Settings.json),
     exists s, Settings.load_settings globals f = Ok s) /\
  (forall globals : Settings.t,
     Settings.load_settings globals None = Ok Settings.defaults) /\
  (forall globals : Settings.t,
     Settings.load_settings globals (Some Garbage) = Ok globals) /\
  Settings.load_settings Settings.defaults (Some Garbage) = Ok Settings.defaults.
Proof.
  repeat split. apply load_settings_total.
Qed.

(** ** Floating-point rounding *)

(** *** Powers of two *)

Lemma pow2_pos (e : Z) : (0 < Float.pow2 e)%Q.
Proof. apply Qpower_0_lt. reflexivity. Qed.

Lemma pow2_plus (a b : Z) : (Float.pow2 (a + b) == Float.pow2 a * Float.pow2 b)%Q.
Proof. apply Qpower_plus. discriminate. Qed.

Lemma pow2_le (a b : Z) : a <= b -> (Float.pow2 a <= Float.pow2 b)%Q.
Proof. intros H. apply Qpower_le_compat_l; [exact H | discriminate]. Qed.

Lemma pow2_lt_inv (a b : Z) : (Float.pow2 a < Float.pow2 b)%Q -> a < b.
Proof. intros H. apply (Qpower_lt_compat_l_inv 2); [exact H | reflexivity]. Qed.

Lemma pow2_Z (e : Z) : 0 <= e -> (Float.pow2 e == inject_Z (2 ^ e))%Q.
Proof. intros H. unfold Float.pow2. rewrite Zpower_Qpower by exact H. reflexivity. Qed.

Lemma pow2_div (a b : Z) : (Float.pow2 a / Float.pow2 b == Float.pow2 (a - b))%Q.
Proof.
  assert (H := pow2_plus (a - b) b). replace (a - b + b) with a in H by ring.
  rewrite H. field. assert (Hp := pow2_pos b). intros E. rewrite E in Hp. discriminate Hp.
Qed.

(** *** The binade *)

Lemma binade_spec (q : Q) :
  (0 < q)%Q -> (Float.pow2 (Float.binade q) <= q < Float.pow2 (Float.binade q + 1))%Q.
Proof.
  intros Hq. destruct q as [n d]. unfold Float.binade. cbn [Qnum Qden].
  assert (Hn : 0 < n) by (unfold Qlt in Hq; simpl in Hq; lia).
  set (a := Z.log2 n). set (b := Z.log2 (Z.pos d)).
  assert (Ha := Z.log2_spec n Hn). assert (Hb := Z.log2_spec (Z.pos d) eq_refl).
  fold a in Ha. fold b in Hb.
  assert (Ha0 : 0 <= a) by apply Z.log2_nonneg.
  assert (Hb0 : 0 <= b) by apply Z.log2_nonneg.
  assert (Hnd : (n # d == inject_Z n / inject_Z (Z.pos d))%Q) by apply Qmake_Qdiv.
  assert (Hdpos : (0 < inject_Z (Z.pos d))%Q) by reflexivity.
  assert (Hup : (n # d < Float.pow2 (a - b + 1))%Q).
  { rewrite Hnd. apply Qlt_shift_div_r; [exact Hdpos |].
    apply Qlt_le_trans with (Float.pow2 (a + 1)).
    - rewrite pow2_Z by lia. rewrite <- Zlt_Qlt. replace (a + 1) with (Z.succ a) by lia. apply Ha.
    - replace (a + 1) with ((a - b + 1) + b) by ring. rewrite pow2_plus.
      apply Qmult_le_l; [apply pow2_pos |].
      rewrite pow2_Z by lia. rewrite <- Zle_Qle. apply Hb. }
  assert (Hlo : (Float.pow2 (a - b - 1) <= n # d)%Q).
  { rewrite Hnd. apply Qle_shift_div_l; [exact Hdpos |].
    apply Qle_trans with (Float.pow2 a).
    - replace a with ((a - b - 1) + (b + 1)) at 2 by ring. rewrite pow2_plus.
      apply Qmult_le_l; [apply pow2_pos |].
      rewrite pow2_Z by lia. rewrite <- Zle_Qle. replace (b + 1) with (Z.succ b) by lia. lia.
    - rewrite pow2_Z by lia. rewrite <- Zle_Qle. apply Ha. }
  destruct (Qle_bool (Float.pow2 (a - b)) (n # d)) eqn:E.
  - apply Qle_bool_iff in E. split; assumption.
  - split; [exact Hlo |]. replace (a - b - 1 + 1) with (a - b) by ring.
    apply Qnot_le_lt. intros H. apply Qle_bool_iff in H. congruence.
Qed.

Lemma binade_mono (x y : Q) :
  (0 < x)%Q -> (x <= y)%Q -> Float.binade x <= Float.binade y.
Proof.
  intros Hx Hxy.
  assert (Hy : (0 < y)%Q) by lra.
  destruct (binade_spec x Hx) as [Hx1 _]. destruct (binade_spec y Hy) as [_ Hy2].
  assert (H : Float.binade x < Float.binade y + 1).
  { apply pow2_lt_inv.
    apply Qle_lt_trans with x; [exact Hx1 |]. apply Qle_lt_trans with y; assumption. }
  lia.
Qed.

(** *** Rounding to the nearest integer, ties to even *)

Lemma round_half_even_bounds (q : Q) :
  Qfloor q <= Float.round_half_even q <= Qfloor q + 1.
Proof.
  unfold Float.round_half_even.
  destruct (q - inject_Z (Qfloor q) ?= 1 # 2)%Q; [destruct (Z.even _) | |]; lia.
Qed.

Lemma round_half_even_Z (k : Z) : Float.round_half_even (inject_Z k) = k.
Proof.
  unfold Float.round_half_even. rewrite Qfloor_Z.
  assert (H : (inject_Z k - inject_Z k ?= 1 # 2)%Q = Lt).
  { apply Qlt_alt. setoid_replace (inject_Z k - inject_Z k)%Q with 0%Q by ring. reflexivity. }
  rewrite H. reflexivity.
Qed.

Lemma round_half_even_mono (x y : Q) :
  (x <= y)%Q -> Float.round_half_even x <= Float.round_half_even y.
Proof.
  intros Hxy.
  assert (Hf := Qfloor_resp_le x y Hxy).
  assert (Bx := round_half_even_bounds x). assert (By := round_half_even_bounds y).
  destruct (Z.eq_dec (Qfloor x) (Qfloor y)) as [E | NE]; [| lia].
  unfold Float.round_half_even. rewrite <- E.
  destruct (x - inject_Z (Qfloor x) ?= 1 # 2)%Q eqn:Cx;
    destruct (y - inject_Z (Qfloor x) ?= 1 # 2)%Q eqn:Cy;
    try (destruct (Z.even (Qfloor x))); try lia; exfalso;
    repeat match goal with
    | H : (_ ?= _)%Q = Eq |- _ => apply Qeq_alt in H
    | H : (_ ?= _)%Q = Lt |- _ => apply Qlt_alt in H
    | H : (_ ?= _)%Q = Gt |- _ => apply Qgt_alt in H
    end;
    set (c := inject_Z (Qfloor x)) in *; lra.
Qed.

(** *** Rounding to binary64 *)

Lemma ulp_exp_mono (x y : Q) :
  (0 < x)%Q -> (x <= y)%Q -> Float.ulp_exp x <= Float.ulp_exp y.
Proof. intros Hx Hxy. assert (H := binade_mono x y Hx Hxy). unfold Float.ulp_exp. lia. Qed.

Lemma scaled_le (x y : Q) (e : Z) :
  (x <= y)%Q -> (x / Float.pow2 e <= y / Float.pow2 e)%Q.
Proof.
  intros H. apply Qmult_le_compat_r; [exact H |].
  apply Qlt_le_weak, Qinv_lt_0_compat, pow2_pos.
Qed.

Lemma round_pos_nonneg (q : Q) : (0 < q)%Q -> (0 <= Float.round_pos q)%Q.
Proof.
  intros Hq. unfold Float.round_pos.
  apply Qmult_le_0_compat; [| apply Qlt_le_weak, pow2_pos].
  change 0%Q with (inject_Z 0). rewrite <- Zle_Qle.
  rewrite <- (round_half_even_Z 0) at 1.
  apply round_half_even_mono. apply Qle_shift_div_l; [apply pow2_pos |].
  rewrite Qmult_0_l. apply Qlt_le_weak, Hq.
Qed.

Lemma round_pos_above (q : Q) (b : Z) :
  Float.ulp_exp q <= b -> (Float.pow2 b <= q)%Q -> (Float.pow2 b <= Float.round_pos q)%Q.
Proof.
  intros He Hq. unfold Float.round_pos. set (e := Float.ulp_exp q) in *.
  assert (Hk : (Float.pow2 b / Float.pow2 e == inject_Z (2 ^ (b - e)))%Q).
  { rewrite pow2_div. apply pow2_Z. lia. }
  assert (Hr : 2 ^ (b - e) <= Float.round_half_even (q / Float.pow2 e)).
  { rewrite <- (round_half_even_Z (2 ^ (b - e))). apply round_half_even_mono.
    rewrite <- Hk. apply scaled_le, Hq. }
  apply Qle_trans with (inject_Z (2 ^ (b - e)) * Float.pow2 e)%Q.
  - rewrite <- Hk. apply Qle_lteq. right. field.
    assert (Hp := pow2_pos e). intros E. rewrite E in Hp. discriminate Hp.
  - apply Qmult_le_compat_r; [| apply Qlt_le_weak, pow2_pos].
    rewrite <- Zle_Qle. exact Hr.
Qed.

Lemma round_pos_below (q : Q) (b : Z) :
  Float.ulp_exp q <= b -> (q <= Float.pow2 b)%Q -> (Float.round_pos q <= Float.pow2 b)%Q.
Proof.
  intros He Hq. unfold Float.round_pos. set (e := Float.ulp_exp q) in *.
  assert (Hk : (Float.pow2 b / Float.pow2 e == inject_Z (2 ^ (b - e)))%Q).
  { rewrite pow2_div. apply pow2_Z. lia. }
  assert (Hr : Float.round_half_even (q / Float.pow2 e) <= 2 ^ (b - e)).
  { rewrite <- (round_half_even_Z (2 ^ (b - e))). apply round_half_even_mono.
    rewrite <- Hk. apply scaled_le, Hq. }
  apply Qle_trans with (inject_Z (2 ^ (b - e)) * Float.pow2 e)%Q.
  - apply Qmult_le_compat_r; [| apply Qlt_le_weak, pow2_pos].
    rewrite <- Zle_Qle. exact Hr.
  - rewrite <- Hk. apply Qle_lteq. right. field.
    assert (Hp := pow2_pos e). intros E. rewrite E in Hp. discriminate Hp.
Qed.

Lemma round_pos_mono (x y : Q) :
  (0 < x)%Q -> (x <= y)%Q -> (Float.round_pos x <= Float.round_pos y)%Q.
Proof.
  intros Hx Hxy. assert (Hy : (0 < y)%Q) by lra.
  assert (He := ulp_exp_mono x y Hx Hxy).
  destruct (Z.eq_dec (Float.ulp_exp x) (Float.ulp_exp y)) as [E | NE].
  - unfold Float.round_pos. rewrite E.
    apply Qmult_le_compat_r; [| apply Qlt_le_weak, pow2_pos].
    rewrite <- Zle_Qle. apply round_half_even_mono, scaled_le, Hxy.
  - assert (Hb : Float.binade x + 1 <= Float.binade y /\
                 Float.ulp_exp x <= Float.binade y /\ Float.ulp_exp y <= Float.binade y).
    { unfold Float.ulp_exp in *. lia. }
    destruct Hb as (Hb & Hex & Hey).
    destruct (binade_spec x Hx) as [_ Hx2]. destruct (binade_spec y Hy) as [Hy1 _].
    apply Qle_trans with (Float.pow2 (Float.binade y)).
    + apply round_pos_below; [exact Hex |].
      apply Qle_trans with (Float.pow2 (Float.binade x + 1)).
      * apply Qlt_le_weak, Hx2.
      * apply pow2_le, Hb.
    + apply round_pos_above; assumption.
Qed.

Lemma fl_pos (q : Q) : (0 < q)%Q -> Float.fl q = Float.round_pos q.
Proof.
  destruct q as [[| p | p] d]; unfold Qlt; simpl; intros H; try lia. reflexivity.
Qed.

Lemma fl_zero (q : Q) : (q == 0)%Q -> Float.fl q = 0%Q.
Proof.
  destruct q as [[| p | p] d]; unfold Qeq; simpl; intros H; try lia. reflexivity.
Qed.

(** Rounding is monotone on the non-negative numbers. *)
Lemma fl_mono (x y : Q) : (0 <= x)%Q -> (x <= y)%Q -> (Float.fl x <= Float.fl y)%Q.
Proof.
  intros Hx Hxy.
  destruct (Qlt_le_dec 0 x) as [Hx0 | Hx0].
  - assert (Hy0 : (0 < y)%Q) by lra.
    rewrite (fl_pos x Hx0), (fl_pos y Hy0). apply round_pos_mono; assumption.
  - rewrite (fl_zero x) by lra.
    destruct (Qlt_le_dec 0 y) as [Hy0 | Hy0].
    + rewrite (fl_pos y Hy0). apply round_pos_nonneg, Hy0.
    + rewrite (fl_zero y) by lra. apply Qle_refl.
Qed.

(** The rounded number is within half a unit in the last place. *)
Lemma round_half_even_near (q : Q) :
  (inject_Z (Float.round_half_even q) - (1 # 2) <= q <=
   inject_Z (Float.round_half_even q) + (1 # 2))%Q.
Proof.
  assert (Hlo := Qfloor_le q). assert (Hhi := Qlt_floor q).
  rewrite inject_Z_plus in Hhi. change (inject_Z 1) with 1%Q in Hhi.
  unfold Float.round_half_even.
  destruct (q - inject_Z (Qfloor q) ?= 1 # 2)%Q eqn:C;
    [apply Qeq_alt in C; destruct (Z.even (Qfloor q))
    | apply Qlt_alt in C | apply Qgt_alt in C];
    rewrite ?inject_Z_plus; change (inject_Z 1) with 1%Q;
    set (c := inject_Z (Qfloor q)) in *; split; lra.
Qed.

Lemma fl_near (q : Q) :
  (0 < q)%Q ->
  (Float.fl q - Float.pow2 (Float.ulp_exp q) / 2 <= q <=
   Float.fl q + Float.pow2 (Float.ulp_exp q) / 2)%Q.
Proof.
  intros Hq. rewrite (fl_pos q Hq). unfold Float.round_pos.
  set (p := Float.pow2 (Float.ulp_exp q)).
  assert (Hp : (0 < p)%Q) by apply pow2_pos.
  destruct (round_half_even_near (q / p)) as [H1 H2].
  set (r := inject_Z (Float.round_half_even (q / p))) in *.
  assert (Hqp : (q == q / p * p)%Q).
  { field. intros E. rewrite E in Hp. discriminate Hp. }
  assert (H1' : ((r - (1 # 2)) * p <= q / p * p)%Q).
  { apply Qmult_le_compat_r; [exact H1 | apply Qlt_le_weak, Hp]. }
  assert (H2' : (q / p * p <= (r + (1 # 2)) * p)%Q).
  { apply Qmult_le_compat_r; [exact H2 | apply Qlt_le_weak, Hp]. }
  rewrite <- Hqp in H1', H2'.
  split.
  - setoid_replace (r * p - p / 2)%Q with ((r - (1 # 2)) * p)%Q by field. exact H1'.
  - setoid_replace (r * p + p / 2)%Q with ((r + (1 # 2)) * p)%Q by field. exact H2'.
Qed.

(** The integers up to 31 are doubles. *)
Lemma fl_small_int (k : Z) : 0 <= k <= 31 -> (Float.fl (inject_Z k) == inject_Z k)%Q.
Proof.
  intros Hk.
  assert (Hall : forallb (fun n => Qeq_bool (Float.fl (inject_Z (Z.of_nat n)))
                                      (inject_Z (Z.of_nat n))) (seq 0 32) = true)
    by (vm_compute; reflexivity).
  rewrite forallb_forall in Hall.
  assert (Hin : In (Z.to_nat k) (seq 0 32)) by (apply in_seq; lia).
  apply Hall in Hin. rewrite Z2Nat.id in Hin by lia.
  apply Qeq_bool_iff, Hin.
Qed.

(** The rounding on some floats of Python: [0.1], [0.41], numbers that
    are floats already, the product [0.1 * 3] (which is
    [0.30000000000000004]), and two ties above 2^53, which go to the even
    neighbour. *)
Lemma fl_examples :
  (Float.fl (1 # 10) == double_0_1)%Q /\ (Float.fl (41 # 100) == double_0_41)%Q /\
  (Float.fl double_0_1 == double_0_1)%Q /\ (Float.fl double_0_15 == double_0_15)%Q /\
  (Float.fl double_below_half == double_below_half)%Q /\
  (Float.fl (1 # 8) == 1 # 8)%Q /\ (Float.fl (double_0_41 * 300) < 123)%Q /\
  (Float.fl (double_0_1 * 3) == 5404319552844596 # 18014398509481984)%Q /\
  (Float.fl 9007199254740993 == 9007199254740992)%Q /\
  (Float.fl 9007199254740995 == 9007199254740996)%Q /\
  (Float.fl (- (1 # 10)) == - double_0_1)%Q.
Proof. repeat split; vm_compute; reflexivity. Qed.

(** ** The tick rate *)

(** The knob of a slider of width 300 at the float [0.41], and at the
    value 41/100 a drag to pixel 123 assigns: the product of the float
    and the width is just below 123. *)
Lemma knob_x_examples :
  Slider.knob_x (Slider.make 250 300 300 double_0_41 false) = 372 /\
  Slider.knob_x (Slider.make 250 300 300 (41 # 100) false) = 372 /\
  Slider.knob_x (Slider.make 250 300 300 (1 # 2) false) = 400.
Proof. repeat split; vm_compute; reflexivity. Qed.

Lemma int_floor (q : Q) : (0 <= q)%Q -> Game.int q = Qfloor q.
Proof.
  destruct q as [n d]. unfold Qle, Game.int, Qfloor; simpl. intros Hn.
  apply Z.quot_div_nonneg; [lia | apply Pos2Z.is_pos].
Qed.

(** The rounded sum stays between the integers that bound the exact sum. *)
Lemma rounded_sum_between (speed : Q) (a b : Z) :
  10 <= a -> b <= 31 ->
  (inject_Z a <= 10 + speed * 20)%Q -> (10 + speed * 20 <= inject_Z b)%Q ->
  (inject_Z a <= Float.fl (10 + Float.fl (speed * 20)) <= inject_Z b)%Q.
Proof.
  intros Ha Hb Hlo Hhi.
  assert (Hab : a <= b) by (rewrite Zle_Qle; lra).
  assert (Ea : (inject_Z (a - 10) == inject_Z a - 10)%Q).
  { unfold Z.sub. rewrite inject_Z_plus. reflexivity. }
  assert (Eb : (inject_Z (b - 10) == inject_Z b - 10)%Q).
  { unfold Z.sub. rewrite inject_Z_plus. reflexivity. }
  assert (Ha0 : (0 <= inject_Z (a - 10))%Q).
  { change 0%Q with (inject_Z 0). rewrite <- Zle_Qle. lia. }
  assert (H1 : (inject_Z (a - 10) <= Float.fl (speed * 20))%Q).
  { rewrite <- (fl_small_int (a - 10)) by lia. apply fl_mono; [exact Ha0 | lra]. }
  assert (H2 : (Float.fl (speed * 20) <= inject_Z (b - 10))%Q).
  { rewrite <- (fl_small_int (b - 10)) by lia. apply fl_mono; lra. }
  assert (Ha1 : (0 <= inject_Z a)%Q).
  { change 0%Q with (inject_Z 0). rewrite <- Zle_Qle. lia. }
  split.
  - rewrite <- (fl_small_int a) by lia. apply fl_mono; [exact Ha1 | lra].
  - rewrite <- (fl_small_int b) by lia. apply fl_mono; lra.
Qed.

Lemma fps_of_floor (speed : Q) :
  (0 <= speed)%Q -> Game.fps_of speed = Qfloor (Float.fl (10 + Float.fl (speed * 20))).
Proof.
  intros H. unfold Game.fps_of. apply int_floor.
  change 0%Q with (Float.fl 0). apply fl_mono; [apply Qle_refl |].
  assert (H0 : (0 <= Float.fl (speed * 20))%Q).
  { change 0%Q with (Float.fl 0) at 1. apply fl_mono; lra. }
  lra.
Qed.

Lemma fps_of_between (speed : Q) (a b : Z) :
  10 <= a -> b <= 31 ->
  (inject_Z a <= 10 + speed * 20)%Q -> (10 + speed * 20 <= inject_Z b)%Q ->
  a <= Game.fps_of speed <= b.
Proof.
  intros Ha Hb Hlo Hhi.
  assert (H0 : (0 <= speed)%Q).
  { assert (H10 : (inject_Z 10 <= inject_Z a)%Q) by (rewrite <- Zle_Qle; exact Ha).
    change (inject_Z 10) with 10%Q in H10. lra. }
  destruct (rounded_sum_between speed a b Ha Hb Hlo Hhi) as [H1 H2].
  rewrite (fps_of_floor speed H0). split.
  - rewrite <- (Qfloor_Z a). apply Qfloor_resp_le, H1.
  - rewrite <- (Qfloor_Z b). apply Qfloor_resp_le, H2.
Qed.

(** The tick rate at some floats: the rounded sum reaches 20 just below
    one half, and 13 at the float [0.15], where the exact sums are below
    20 and below 13. *)
Lemma fps_of_examples :
  Game.fps_of double_below_half = 20 /\ Qfloor (10 + double_below_half * 20) = 19 /\
  Game.fps_of double_0_15 = 13 /\ Qfloor (10 + double_0_15 * 20) = 12 /\
  Game.fps_of double_0_1 = 12 /\ Game.fps_of 0 = 10 /\ Game.fps_of 1 = 30.
Proof. repeat split; vm_compute; reflexivity. Qed.

Lemma run_frames_fps (frs : list Game.Frame) :
  forall g g', run_frames frs g = Some g' -> Game.current_fps g' = Game.current_fps g.
Proof.
  induction frs as [| fr frs IH]; intros g g'.
  - simpl. intros [= <-]. reflexivity.
  - cbn [run_frames]. destruct (Game.tick fr g) as [g1 | g1 | c] eqn:Ht; try discriminate.
    intros Hrest. rewrite (IH _ _ Hrest).
    exact (proj1 (tick_account fr g g1 (or_introl Ht))).
Qed.

(** C8, the counterexample: at speed 0.125 the expression
    [10 + speed * 20] is 12.5 and the tick rate is 12. *)
Lemma C8_tick_rate_counterexample :
  ~ (forall speed : Q, (0 <= speed <= 1)%Q ->
       (inject_Z (Game.fps_of speed) == 10 + speed * 20)%Q).
Proof.
  intros H. specialize (H (1 # 8)%Q).
  assert (Hr : (0 <= 1 # 8 <= 1)%Q) by (split; discriminate).
  specialize (H Hr). vm_compute in H. discriminate H.
Qed.

(** C8, as amended.  For every speed in [0, 1] the tick rate computed on
    entry of [run_game] is [int(10 + speed * 20)] as floating-point
    arithmetic evaluates it: the integer part of the rounded sum.  It is
    an integer between 10 and 30; it is the integer part of the exact
    [10 + speed * 20] or, when rounding carries the sum up to the next
    integer, one more; it is [10 + speed * 20] itself when that is an
    integer.  No pass of the loop changes it. *)
Theorem C8_tick_rate (speed : Q) :
  (0 <= speed <= 1)%Q ->
  Game.fps_of speed = Qfloor (Float.fl (10 + Float.fl (speed * 20))) /\
  10 <= Game.fps_of speed <= 30 /\
  Qfloor (10 + speed * 20) <= Game.fps_of speed <= Qfloor (10 + speed * 20) + 1 /\
  (forall k : Z, (10 + speed * 20 == inject_Z k)%Q -> Game.fps_of speed = k) /\
  (forall (ticks : Z) (entropy : list Z) (g0 : Game.t) (frs : list Game.Frame) (g : Game.t),
     Game.start speed ticks entropy = Some g0 ->
     run_frames frs g0 = Some g ->
     Game.current_fps g0 = Game.fps_of speed /\
     Game.current_fps g = Game.fps_of speed).
Proof.
  intros [H0 H1].
  assert (Hlo : 10 <= Qfloor (10 + speed * 20)).
  { change (Qfloor 10%Q <= Qfloor (10 + speed * 20)%Q). apply Qfloor_resp_le. lra. }
  assert (Hhi : Qfloor (10 + speed * 20) <= 30).
  { change (Qfloor (10 + speed * 20)%Q <= Qfloor 30%Q). apply Qfloor_resp_le. lra. }
  split; [exact (fps_of_floor speed H0) |]. split; [| split; [| split]].
  - apply fps_of_between; try lia.
    + change (inject_Z 10) with 10%Q. lra.
    + change (inject_Z 30) with 30%Q. lra.
  - apply fps_of_between; try lia.
    + apply Qfloor_le.
    + apply Qlt_le_weak, Qlt_floor.
  - intros k Hk.
    assert (Hk' : k = Qfloor (10 + speed * 20)) by (rewrite Hk; symmetry; apply Qfloor_Z).
    assert (H := fps_of_between speed k k ltac:(lia) ltac:(lia)
                   ltac:(rewrite Hk; apply Qle_refl) ltac:(rewrite Hk; apply Qle_refl)).
    lia.
  - intros ticks entropy g0 frs g Hs Hrun.
    destruct (start_account _ _ _ _ Hs) as (_ & _ & Hf).
    rewrite (run_frames_fps _ _ _ Hrun), Hf. auto.
Qed.

(** A session for C8: speed 0.125, two passes of the loop. *)
Lemma C8_tick_rate_witness :
  (0 <= 1 # 8 <= 1)%Q /\
  Game.fps_of (1 # 8) = 12 /\
  Game.start (1 # 8) 0 [21; 15] = Some demo_after_start /\
  run_frames [demo_first_frame; demo_second_frame] demo_after_start = Some demo_after_second /\
  Game.current_fps demo_after_second = Game.fps_of (1 # 8).
Proof.
  assert (Hr : (0 <= 1 # 8 <= 1)%Q) by (split; discriminate).
  split; [exact Hr |]. split; [reflexivity |].
  split; [reflexivity |]. split; [reflexivity |].
  exact (proj2 (proj2 (proj2 (proj2 (proj2 (C8_tick_rate (1 # 8)%Q Hr)))) 0 [21; 15]
                 demo_after_start [demo_first_frame; demo_second_frame]
                 demo_after_second eq_refl eq_refl)).
Defined.

(** ** The stable descending sort *)

Lemma insert_desc_In (e x : Leaderboard.entry) (l : list Leaderboard.entry) :
  In x (Leaderboard.insert_desc e l) <-> x = e \/ In x l.
Proof.
  induction l as [| h t IH]; simpl.
  - intuition.
  - destruct (Leaderboard.score h <? Leaderboard.score e); simpl.
    + intuition.
    + rewrite IH. intuition.
Qed.

Lemma insert_desc_length (e : Leaderboard.entry) (l : list Leaderboard.entry) :
  List.length (Leaderboard.insert_desc e l) = S (List.length l).
Proof.
  induction l as [| h t IH]; simpl; [reflexivity |].
  destruct (Leaderboard.score h <? Leaderboard.score e); simpl; congruence.
Qed.

Lemma insert_desc_perm (e : Leaderboard.entry) (l : list Leaderboard.entry) :
  Permutation (e :: l) (Leaderboard.insert_desc e l).
Proof.
  induction l as [| h t IH]; simpl; [apply Permutation_refl |].
  destruct (Leaderboard.score h <? Leaderboard.score e).
  - apply Permutation_refl.
  - apply perm_trans with (h :: e :: t); [apply perm_swap | apply perm_skip, IH].
Qed.

Lemma insert_desc_sorted (e : Leaderboard.entry) (l : list Leaderboard.entry) :
  sorted_desc l -> sorted_desc (Leaderboard.insert_desc e l).
Proof.
  unfold sorted_desc. induction l as [| h t IH]; intros Hs; simpl.
  - constructor; constructor.
  - apply StronglySorted_inv in Hs. destruct Hs as [Ht Hh].
    destruct (Z.ltb_spec (Leaderboard.score h) (Leaderboard.score e)) as [Hlt | Hge].
    + constructor; [constructor; assumption |].
      constructor; [unfold by_score_desc; lia |].
      rewrite Forall_forall in *. intros x Hx. specialize (Hh x Hx).
      unfold by_score_desc in *. lia.
    + constructor; [apply IH; assumption |].
      rewrite Forall_forall in *. intros x Hx. apply insert_desc_In in Hx.
      destruct Hx as [-> | Hx]; [exact Hge | apply Hh, Hx].
Qed.

Lemma sort_desc_snoc (l : list Leaderboard.entry) (e : Leaderboard.entry) :
  Leaderboard.sort_desc (l ++ [e]) = Leaderboard.insert_desc e (Leaderboard.sort_desc l).
Proof.
  unfold Leaderboard.sort_desc. rewrite fold_left_app. reflexivity.
Qed.

Lemma sort_desc_sorted (l : list Leaderboard.entry) :
  sorted_desc (Leaderboard.sort_desc l).
Proof.
  induction l as [| e l IH] using rev_ind.
  - constructor.
  - rewrite sort_desc_snoc. apply insert_desc_sorted, IH.
Qed.

Lemma sort_desc_perm (l : list Leaderboard.entry) :
  Permutation l (Leaderboard.sort_desc l).
Proof.
  induction l as [| e l IH] using rev_ind.
  - apply Permutation_refl.
  - rewrite sort_desc_snoc.
    apply perm_trans with (e :: l).
    + apply Permutation_sym, Permutation_cons_append.
    + apply perm_trans with (e :: Leaderboard.sort_desc l);
        [apply perm_skip, IH | apply insert_desc_perm].
Qed.

Lemma sort_desc_length (l : list Leaderboard.entry) :
  List.length (Leaderboard.sort_desc l) = List.length l.
Proof. symmetry. apply Permutation_length, sort_desc_perm. Qed.

Lemma sorted_desc_app_l (l1 l2 : list Leaderboard.entry) :
  sorted_desc (l1 ++ l2) -> sorted_desc l1.
Proof.
  unfold sorted_desc. induction l1 as [| h t IH]; simpl; intros Hs; [constructor |].
  apply StronglySorted_inv in Hs. destruct Hs as [Ht Hh].
  constructor; [apply IH, Ht |].
  rewrite Forall_forall in *. intros x Hx. apply Hh, in_or_app. left. exact Hx.
Qed.

Lemma insert_desc_last (l : list Leaderboard.entry) (e : Leaderboard.entry) :
  sorted_desc (l ++ [e]) -> Leaderboard.insert_desc e l = l ++ [e].
Proof.
  unfold sorted_desc. induction l as [| h t IH]; simpl; intros Hs; [reflexivity |].
  apply StronglySorted_inv in Hs. destruct Hs as [Ht Hh].
  rewrite Forall_forall in Hh.
  assert (He : by_score_desc h e) by (apply Hh, in_or_app; right; left; reflexivity).
  unfold by_score_desc in He.
  destruct (Z.ltb_spec (Leaderboard.score h) (Leaderboard.score e)); [lia |].
  f_equal. apply IH, Ht.
Qed.

(** Sorting a list that is in order already gives it back. *)
Lemma sort_desc_id (l : list Leaderboard.entry) :
  sorted_desc l -> Leaderboard.sort_desc l = l.
Proof.
  induction l as [| e l IH] using rev_ind; intros Hs; [reflexivity |].
  rewrite sort_desc_snoc, (IH (sorted_desc_app_l _ _ Hs)).
  apply insert_desc_last, Hs.
Qed.

Lemma firstn_sorted (n : nat) (l : list Leaderboard.entry) :
  sorted_desc l -> sorted_desc (firstn n l).
Proof.
  intros Hs. rewrite <- (firstn_skipn n l) in Hs. exact (sorted_desc_app_l _ _ Hs).
Qed.

Lemma firstn_In (n : nat) (l : list Leaderboard.entry) (x : Leaderboard.entry) :
  In x (firstn n l) -> In x l.
Proof.
  intros Hx. rewrite <- (firstn_skipn n l). apply in_or_app. left. exact Hx.
Qed.

Lemma firstn_cons_firstn (k : nat) (h : Leaderboard.entry) (t : list Leaderboard.entry) :
  firstn k (h :: firstn k t) = firstn k (h :: t).
Proof.
  destruct k as [| k]; [reflexivity |].
  rewrite !firstn_cons. f_equal.
  rewrite firstn_firstn. f_equal. lia.
Qed.

(** Cutting before or after an insertion gives the same first [k] records. *)
Lemma firstn_insert_desc (e : Leaderboard.entry) (l : list Leaderboard.entry) :
  forall k, firstn k (Leaderboard.insert_desc e (firstn k l)) =
            firstn k (Leaderboard.insert_desc e l).
Proof.
  induction l as [| h t IH]; intros k.
  - rewrite firstn_nil. reflexivity.
  - destruct k as [| k]; [reflexivity |].
    rewrite firstn_cons. cbn [Leaderboard.insert_desc].
    destruct (Leaderboard.score h <? Leaderboard.score e).
    + rewrite !firstn_cons. f_equal. apply firstn_cons_firstn.
    + rewrite !firstn_cons. f_equal. apply IH.
Qed.

Lemma filter_insert_desc_other (f : Leaderboard.entry -> bool)
    (e : Leaderboard.entry) (l : list Leaderboard.entry) :
  f e = false -> filter f (Leaderboard.insert_desc e l) = filter f l.
Proof.
  intros He. induction l as [| h t IH]; simpl; [now rewrite He |].
  destruct (Leaderboard.score h <? Leaderboard.score e); simpl.
  - now rewrite He.
  - now rewrite IH.
Qed.

Lemma filter_none_all {A : Type} (f : A -> bool) (l : list A) :
  (forall x, In x l -> f x = false) -> filter f l = [].
Proof.
  induction l as [| h t IH]; intros H; [reflexivity |].
  simpl. rewrite (H h (or_introl eq_refl)). apply IH.
  intros x Hx. apply H. right. exact Hx.
Qed.

(** The sort is stable: the records of any one score come out in the
    order they went in.  Together with [sort_desc_perm] and
    [sort_desc_sorted] this pins the result down, whatever the algorithm. *)
Lemma filter_score_insert_desc (v : Z) (e : Leaderboard.entry)
    (l : list Leaderboard.entry) :
  sorted_desc l -> Leaderboard.score e = v ->
  filter (fun x => Leaderboard.score x =? v) (Leaderboard.insert_desc e l) =
    filter (fun x => Leaderboard.score x =? v) l ++ [e].
Proof.
  unfold sorted_desc. intros Hs He. induction l as [| h t IH].
  - simpl. rewrite He, Z.eqb_refl. reflexivity.
  - apply StronglySorted_inv in Hs. destruct Hs as [Ht Hh].
    cbn [Leaderboard.insert_desc].
    destruct (Z.ltb_spec (Leaderboard.score h) (Leaderboard.score e)) as [Hlt | Hge].
    + cbn [filter]. rewrite He, Z.eqb_refl.
      replace (Leaderboard.score h =? v) with false by (symmetry; apply Z.eqb_neq; lia).
      rewrite filter_none_all; [reflexivity |].
      intros x Hx. rewrite Forall_forall in Hh. specialize (Hh x Hx).
      unfold by_score_desc in Hh. apply Z.eqb_neq. lia.
    + cbn [filter]. rewrite (IH Ht).
      destruct (Leaderboard.score h =? v); reflexivity.
Qed.

Lemma sort_desc_stable (v : Z) (l : list Leaderboard.entry) :
  filter (fun x => Leaderboard.score x =? v) (Leaderboard.sort_desc l) =
    filter (fun x => Leaderboard.score x =? v) l.
Proof.
  induction l as [| e l IH] using rev_ind; [reflexivity |].
  rewrite sort_desc_snoc, filter_app. cbn [filter].
  destruct (Z.eqb_spec (Leaderboard.score e) v) as [He | He].
  - rewrite (filter_score_insert_desc v e _ (sort_desc_sorted l) He), IH. reflexivity.
  - rewrite filter_insert_desc_other by (apply Z.eqb_neq; exact He).
    rewrite IH, app_nil_r. reflexivity.
Qed.

(** ** Leaderboard.add_score *)

Section AddScore.

(** [str.lower]. *)
Variable lower : string -> string.

Lemma find_none_all {A : Type} (f : A -> bool) (l : list A) :
  (forall x, In x l -> f x = false) -> find f l = None.
Proof.
  induction l as [| h t IH]; intros H; [reflexivity |].
  simpl. rewrite (H h (or_introl eq_refl)). apply IH.
  intros x Hx. apply H. right. exact Hx.
Qed.

Lemma find_first_match (u : string) (l1 l2 : list Leaderboard.entry)
    (e : Leaderboard.entry) :
  (forall x, In x l1 -> Leaderboard.same_user lower u x = false) ->
  Leaderboard.same_user lower u e = true ->
  find (Leaderboard.same_user lower u) (l1 ++ e :: l2) = Some e.
Proof.
  induction l1 as [| h t IH]; intros Hn He; simpl.
  - rewrite He. reflexivity.
  - rewrite (Hn h (or_introl eq_refl)). apply IH; [| exact He].
    intros x Hx. apply Hn. right. exact Hx.
Qed.

Lemma update_first_match (u : string) (sc : Z) (now : string)
    (l1 l2 : list Leaderboard.entry) (e : Leaderboard.entry) :
  (forall x, In x l1 -> Leaderboard.same_user lower u x = false) ->
  Leaderboard.same_user lower u e = true ->
  Leaderboard.update_existing lower u sc now (l1 ++ e :: l2) =
    l1 ++ Leaderboard.make_entry (Leaderboard.username e) sc now :: l2.
Proof.
  induction l1 as [| h t IH]; intros Hn He; simpl.
  - rewrite He. reflexivity.
  - rewrite (Hn h (or_introl eq_refl)). f_equal. apply IH; [| exact He].
    intros x Hx. apply Hn. right. exact Hx.
Qed.

Lemma update_existing_length (u : string) (sc : Z) (now : string)
    (l : list Leaderboard.entry) :
  List.length (Leaderboard.update_existing lower u sc now l) = List.length l.
Proof.
  induction l as [| h t IH]; simpl; [reflexivity |].
  destruct (Leaderboard.same_user lower u h); simpl; congruence.
Qed.

Lemma add_score_new (scores : list Leaderboard.entry) (u : string) (sc : Z)
    (now : string) :
  (forall e, In e scores -> Leaderboard.same_user lower u e = false) ->
  Leaderboard.add_score lower scores u sc now =
    firstn 10 (Leaderboard.sort_desc (scores ++ [Leaderboard.make_entry u sc now])).
Proof.
  intros Hn. unfold Leaderboard.add_score. rewrite (find_none_all _ _ Hn). reflexivity.
Qed.

Lemma add_score_match (l1 l2 : list Leaderboard.entry) (e : Leaderboard.entry)
    (u : string) (sc : Z) (now : string) :
  (forall x, In x l1 -> Leaderboard.same_user lower u x = false) ->
  Leaderboard.same_user lower u e = true ->
  Leaderboard.add_score lower (l1 ++ e :: l2) u sc now =
    firstn 10 (Leaderboard.sort_desc
      (l1 ++ (if sc >? Leaderboard.score e
              then Leaderboard.make_entry (Leaderboard.username e) sc now
              else e) :: l2)).
Proof.
  intros Hn He. unfold Leaderboard.add_score.
  rewrite (find_first_match u l1 l2 e Hn He).
  destruct (sc >? Leaderboard.score e); [| reflexivity].
  rewrite (update_first_match u sc now l1 l2 e Hn He). reflexivity.
Qed.

Lemma add_score_bounded (scores : list Leaderboard.entry) (u : string) (sc : Z)
    (now : string) :
  (List.length (Leaderboard.add_score lower scores u sc now) <= 10)%nat /\
  sorted_desc (Leaderboard.add_score lower scores u sc now).
Proof.
  unfold Leaderboard.add_score. split.
  - apply firstn_le_length.
  - apply firstn_sorted, sort_desc_sorted.
Qed.

(** A call that does not beat the record it matches leaves a board that
    is in order and within the cap exactly as it is. *)
Lemma add_score_not_better (scores : list Leaderboard.entry) (u : string) (sc : Z)
    (now : string) (e : Leaderboard.entry) :
  sorted_desc scores -> (List.length scores <= 10)%nat ->
  find (Leaderboard.same_user lower u) scores = Some e ->
  sc <= Leaderboard.score e ->
  Leaderboard.add_score lower scores u sc now = scores.
Proof.
  intros Hs Hl Hf Hle. unfold Leaderboard.add_score. rewrite Hf.
  destruct (Z.gtb_spec sc (Leaderboard.score e)); [lia |].
  rewrite (sort_desc_id _ Hs). apply firstn_all2, Hl.
Qed.

(** *** Records of one identity *)

Lemma filter_insert_desc_only (f : Leaderboard.entry -> bool)
    (e : Leaderboard.entry) (l : list Leaderboard.entry) :
  f e = true -> filter f l = [] -> filter f (Leaderboard.insert_desc e l) = [e].
Proof.
  intros He. induction l as [| h t IH]; simpl; [now rewrite He |].
  destruct (f h) eqn:Hh; [discriminate |]. intros Ht.
  destruct (Leaderboard.score h <? Leaderboard.score e); simpl.
  - rewrite He, Hh, Ht. reflexivity.
  - rewrite Hh. apply IH, Ht.
Qed.

Lemma filter_sort_desc_none (f : Leaderboard.entry -> bool)
    (l : list Leaderboard.entry) :
  filter f l = [] -> filter f (Leaderboard.sort_desc l) = [].
Proof.
  induction l as [| x l IH] using rev_ind; [reflexivity |].
  rewrite filter_app, sort_desc_snoc. simpl.
  destruct (f x) eqn:Hx.
  - intros H. apply app_eq_nil in H. destruct H as [_ H]. discriminate H.
  - rewrite app_nil_r. intros H. rewrite filter_insert_desc_other by exact Hx.
    apply IH, H.
Qed.

Lemma filter_sort_desc_one (f : Leaderboard.entry -> bool)
    (l : list Leaderboard.entry) (e : Leaderboard.entry) :
  filter f l = [e] -> filter f (Leaderboard.sort_desc l) = [e].
Proof.
  induction l as [| x l IH] using rev_ind; [discriminate |].
  rewrite filter_app, sort_desc_snoc. simpl.
  destruct (f x) eqn:Hx.
  - intros H. destruct (filter f l) as [| a [| b r]] eqn:Hl; simpl in H.
    + injection H as <-. apply filter_insert_desc_only; [exact Hx |].
      apply filter_sort_desc_none, Hl.
    + discriminate H.
    + discriminate H.
  - rewrite app_nil_r. intros H. rewrite filter_insert_desc_other by exact Hx.
    apply IH, H.
Qed.

Lemma find_head_filter {A : Type} (f : A -> bool) (l : list A) :
  find f l = hd_error (filter f l).
Proof.
  induction l as [| h t IH]; simpl; [reflexivity |].
  destruct (f h); [reflexivity | exact IH].
Qed.

Lemma filter_update_existing (u : string) (sc : Z) (now : string)
    (l : list Leaderboard.entry) :
  filter (Leaderboard.same_user lower u) (Leaderboard.update_existing lower u sc now l) =
    match filter (Leaderboard.same_user lower u) l with
    | [] => []
    | e :: rest => Leaderboard.make_entry (Leaderboard.username e) sc now :: rest
    end.
Proof.
  induction l as [| h t IH]; simpl; [reflexivity |].
  destruct (Leaderboard.same_user lower u h) eqn:Hh; simpl.
  - unfold Leaderboard.same_user in *. simpl. rewrite Hh. reflexivity.
  - rewrite Hh. exact IH.
Qed.

Lemma same_user_lower (u v : string) (e : Leaderboard.entry) :
  lower u = lower v ->
  Leaderboard.same_user lower u e = Leaderboard.same_user lower v e.
Proof. unfold Leaderboard.same_user. intros ->. reflexivity. Qed.

(** On a board with room that does not know the identity, a first score
    followed by a better one under another spelling leaves one record of
    the identity: first spelling, better score, second date. *)
Lemma add_score_twice (scores : list Leaderboard.entry) (u1 u2 : string)
    (sc1 sc2 : Z) (t1 t2 : string) :
  (List.length scores <= 9)%nat ->
  (forall e, In e scores -> Leaderboard.same_user lower u1 e = false) ->
  lower u1 = lower u2 ->
  sc1 < sc2 ->
  filter (Leaderboard.same_user lower u2)
    (Leaderboard.add_scores lower scores [(u1, sc1, t1); (u2, sc2, t2)]) =
    [Leaderboard.make_entry u1 sc2 t2].
Proof.
  intros Hlen Hnew Hlow Hlt. unfold Leaderboard.add_scores. cbn [fold_left fst snd].
  rewrite (add_score_new scores u1 sc1 t1 Hnew).
  set (e1 := Leaderboard.make_entry u1 sc1 t1).
  assert (Hl1 : List.length (Leaderboard.sort_desc (scores ++ [e1])) = S (List.length scores)).
  { rewrite sort_desc_length, length_app. simpl. lia. }
  rewrite firstn_all2 by lia.
  set (board := Leaderboard.sort_desc (scores ++ [e1])) in *.
  assert (Hme : Leaderboard.same_user lower u2 e1 = true).
  { unfold Leaderboard.same_user, e1. simpl. rewrite Hlow. apply String.eqb_refl. }
  assert (Hf : filter (Leaderboard.same_user lower u2) board = [e1]).
  { apply filter_sort_desc_one. rewrite filter_app. simpl. rewrite Hme.
    rewrite filter_none_all; [reflexivity |].
    intros x Hx. rewrite <- (same_user_lower u1 u2 x Hlow). apply Hnew, Hx. }
  unfold Leaderboard.add_score. rewrite find_head_filter, Hf. cbn [hd_error].
  replace (sc2 >? Leaderboard.score e1) with true
    by (symmetry; apply Z.gtb_lt; simpl; lia).
  rewrite firstn_all2
    by (rewrite sort_desc_length, update_existing_length; lia).
  apply filter_sort_desc_one. rewrite filter_update_existing, Hf. reflexivity.
Qed.

(** On a fresh board, a first score followed by a better one under
    another spelling of the name leaves one record: first spelling,
    better score, second date. *)
Lemma add_scores_pair (u1 u2 : string) (sc1 sc2 : Z) (t1 t2 : string) :
  lower u1 = lower u2 -> sc1 < sc2 ->
  Leaderboard.add_scores lower [] [(u1, sc1, t1); (u2, sc2, t2)] =
    [Leaderboard.make_entry u1 sc2 t2].
Proof.
  intros Hlow Hlt. unfold Leaderboard.add_scores. cbn [fold_left fst snd].
  rewrite (add_score_new [] u1 sc1 t1) by (intros e []).
  change (firstn 10 (Leaderboard.sort_desc ([] ++ [Leaderboard.make_entry u1 sc1 t1])))
    with ([] ++ Leaderboard.make_entry u1 sc1 t1 :: []).
  rewrite add_score_match.
  - cbn [Leaderboard.score Leaderboard.username].
    replace (sc2 >? sc1) with true by (symmetry; apply Z.gtb_lt; lia). reflexivity.
  - intros x [].
  - unfold Leaderboard.same_user. cbn [Leaderboard.username].
    rewrite Hlow. apply String.eqb_refl.
Qed.

(** On a fresh board, a second score under another spelling of the name
    that is not better leaves the first record as it is. *)
Lemma add_scores_pair_kept (u1 u2 : string) (sc1 sc2 : Z) (t1 t2 : string) :
  lower u1 = lower u2 -> sc2 <= sc1 ->
  Leaderboard.add_scores lower [] [(u1, sc1, t1); (u2, sc2, t2)] =
    [Leaderboard.make_entry u1 sc1 t1].
Proof.
  intros Hlow Hle. unfold Leaderboard.add_scores. cbn [fold_left fst snd].
  rewrite (add_score_new [] u1 sc1 t1) by (intros e []).
  change (firstn 10 (Leaderboard.sort_desc ([] ++ [Leaderboard.make_entry u1 sc1 t1])))
    with ([] ++ Leaderboard.make_entry u1 sc1 t1 :: []).
  rewrite add_score_match.
  - cbn [Leaderboard.score Leaderboard.username].
    replace (sc2 >? sc1) with false by (symmetry; rewrite Z.gtb_ltb; apply Z.ltb_ge; lia).
    reflexivity.
  - intros x [].
  - unfold Leaderboard.same_user. cbn [Leaderboard.username].
    rewrite Hlow. apply String.eqb_refl.
Qed.

(** C5. [add_score] looks for the first record whose name equals the
    given one up to case, that is, after [lower]; this holds for every
    function [lower], hence for [str.lower] on names in any script.  With
    no such record it appends a new one;
    with one, it rewrites score and date of that record when the new
    score is strictly greater and changes nothing otherwise; the board is
    then sorted and cut to ten.  When [lower] gives the same for "Alice"
    and "alice", as [str.lower] does: on a fresh board, ("Alice", 50) then
    ("alice", 80) leaves the single record Alice/80 with the second
    date, and ("alice", 80) then ("Alice", 80) leaves the first record
    with its score and date.  More generally the first holds for the
    records of the identity on any board with room that did not know it,
    and a call that does not beat its record leaves a board in order and
    within the cap unchanged. *)
Theorem C5_add_score_case_insensitive :
  (forall (scores : list Leaderboard.entry) (u : string) (sc : Z) (now : string),
     (forall e, In e scores -> Leaderboard.same_user lower u e = false) ->
     Leaderboard.add_score lower scores u sc now =
       firstn 10 (Leaderboard.sort_desc (scores ++ [Leaderboard.make_entry u sc now]))) /\
  (forall (l1 l2 : list Leaderboard.entry) (e : Leaderboard.entry)
          (u : string) (sc : Z) (now : string),
     (forall x, In x l1 -> Leaderboard.same_user lower u x = false) ->
     Leaderboard.same_user lower u e = true ->
     Leaderboard.add_score lower (l1 ++ e :: l2) u sc now =
       firstn 10 (Leaderboard.sort_desc
         (l1 ++ (if sc >? Leaderboard.score e
                 then Leaderboard.make_entry (Leaderboard.username e) sc now
                 else e) :: l2))) /\
  (lower "Alice" = lower "alice" ->
   forall t1 t2 : string,
     Leaderboard.add_scores lower [] [("Alice", 50, t1); ("alice", 80, t2)]%string =
       [Leaderboard.make_entry "Alice" 80 t2]) /\
  (lower "Alice" = lower "alice" ->
   forall t1 t2 : string,
     Leaderboard.add_scores lower [] [("alice", 80, t1); ("Alice", 80, t2)]%string =
       [Leaderboard.make_entry "alice" 80 t1]) /\
  (forall (scores : list Leaderboard.entry) (u1 u2 : string) (sc1 sc2 : Z)
          (t1 t2 : string),
     (List.length scores <= 9)%nat ->
     (forall e, In e scores -> Leaderboard.same_user lower u1 e = false) ->
     lower u1 = lower u2 ->
     sc1 < sc2 ->
     filter (Leaderboard.same_user lower u2)
       (Leaderboard.add_scores lower scores [(u1, sc1, t1); (u2, sc2, t2)]) =
       [Leaderboard.make_entry u1 sc2 t2]) /\
  (forall (scores : list Leaderboard.entry) (u : string) (sc : Z) (now : string)
          (e : Leaderboard.entry),
     sorted_desc scores -> (List.length scores <= 10)%nat ->
     find (Leaderboard.same_user lower u) scores = Some e ->
     sc <= Leaderboard.score e ->
     Leaderboard.add_score lower scores u sc now = scores).
Proof.
  split; [exact add_score_new |].
  split; [exact add_score_match |].
  split; [intros H t1 t2; apply add_scores_pair; [exact H | lia] |].
  split; [intros H t1 t2; apply add_scores_pair_kept; [symmetry; exact H | lia] |].
  split; [exact add_score_twice | exact add_score_not_better].
Qed.

(** *** Distinct identities *)

Lemma add_scores_snoc (scores : list Leaderboard.entry)
    (calls : list (string * Z * string)) (c : string * Z * string) :
  Leaderboard.add_scores lower scores (calls ++ [c]) =
    Leaderboard.add_score lower (Leaderboard.add_scores lower scores calls)
      (fst (fst c)) (snd (fst c)) (snd c).
Proof.
  unfold Leaderboard.add_scores. rewrite fold_left_app. reflexivity.
Qed.

Lemma add_scores_distinct (calls : list (string * Z * string)) :
  NoDup (map (identity_of lower) calls) ->
  Leaderboard.add_scores lower [] calls =
    firstn 10 (Leaderboard.sort_desc (map entry_of calls)).
Proof.
  induction calls as [| c calls IH] using rev_ind; intros Hnd; [reflexivity |].
  rewrite map_app in Hnd. simpl in Hnd.
  pose proof (NoDup_remove_1 _ _ _ Hnd) as Hnd1.
  pose proof (NoDup_remove_2 _ _ _ Hnd) as Hfresh.
  rewrite app_nil_r in Hnd1, Hfresh.
  rewrite add_scores_snoc, (IH Hnd1), add_score_new.
  - rewrite map_app. simpl map.
    rewrite !sort_desc_snoc.
    rewrite (sort_desc_id _ (firstn_sorted 10 _ (sort_desc_sorted _))).
    apply firstn_insert_desc.
  - intros e He. apply firstn_In in He.
    apply (Permutation_in _ (Permutation_sym (sort_desc_perm _))) in He.
    apply in_map_iff in He. destruct He as (c' & <- & Hc').
    unfold Leaderboard.same_user. apply String.eqb_neq. intros Heq.
    apply Hfresh. unfold identity_of at 1. rewrite <- Heq.
    change (lower (Leaderboard.username (entry_of c'))) with (identity_of lower c').
    apply in_map, Hc'.
Qed.

(** C6. After every call of [add_score] the board holds at most ten
    records, in descending order of score.  Calls with pairwise distinct
    identities (names pairwise distinct after [lower], for every function
    [lower]) on a fresh board leave the first ten records of the
    descending arrangement of all the records added: with eleven calls,
    exactly the ten best. *)
Theorem C6_add_score_top_ten :
  (forall (scores : list Leaderboard.entry) (u : string) (sc : Z) (now : string),
     (List.length (Leaderboard.add_score lower scores u sc now) <= 10)%nat /\
     sorted_desc (Leaderboard.add_score lower scores u sc now)) /\
  (forall calls : list (string * Z * string),
     NoDup (map (identity_of lower) calls) ->
     Leaderboard.add_scores lower [] calls =
       firstn 10 (Leaderboard.sort_desc (map entry_of calls)) /\
     Permutation (map entry_of calls) (Leaderboard.sort_desc (map entry_of calls)) /\
     sorted_desc (Leaderboard.sort_desc (map entry_of calls)) /\
     (List.length calls = 11%nat ->
      List.length (Leaderboard.add_scores lower [] calls) = 10%nat)).
Proof.
  split; [exact add_score_bounded |].
  intros calls Hnd. rewrite (add_scores_distinct calls Hnd).
  split; [reflexivity |]. split; [apply sort_desc_perm |].
  split; [apply sort_desc_sorted |].
  intros Hlen. rewrite length_firstn, sort_desc_length, length_map, Hlen. reflexivity.
Qed.

End AddScore.

(** Boards for C5, with the case folding of ASCII: Alice twice on a
    fresh board, and after one other player. *)
Lemma C5_add_score_case_insensitive_witness :
  Leaderboard.ascii_lower "Alice" = Leaderboard.ascii_lower "alice" /\
  Leaderboard.add_scores Leaderboard.ascii_lower []
    [("Alice", 50, "t1"); ("alice", 80, "t2")]%string =
    [Leaderboard.make_entry "Alice" 80 "t2"] /\
  Leaderboard.add_scores Leaderboard.ascii_lower []
    [("alice", 80, "t1"); ("Alice", 80, "t2")]%string =
    [Leaderboard.make_entry "alice" 80 "t1"] /\
  filter (Leaderboard.same_user Leaderboard.ascii_lower "alice")
    (Leaderboard.add_scores Leaderboard.ascii_lower [Leaderboard.make_entry "Bob" 60 "t0"]
       [("Alice", 50, "t1"); ("alice", 80, "t2")]%string) =
    [Leaderboard.make_entry "Alice" 80 "t2"] /\
  Leaderboard.add_score Leaderboard.ascii_lower
    [Leaderboard.make_entry "Bob" 60 "t0"] "Alice" 50 "t1" =
    [Leaderboard.make_entry "Bob" 60 "t0"; Leaderboard.make_entry "Alice" 50 "t1"] /\
  Leaderboard.add_score Leaderboard.ascii_lower
    [Leaderboard.make_entry "Bob" 60 "t0"; Leaderboard.make_entry "Alice" 50 "t1"]
    "alice" 80 "t2" =
    [Leaderboard.make_entry "Alice" 80 "t2"; Leaderboard.make_entry "Bob" 60 "t0"] /\
  Leaderboard.add_score Leaderboard.ascii_lower
    [Leaderboard.make_entry "Alice" 80 "t2"; Leaderboard.make_entry "Bob" 60 "t0"]
    "ALICE" 80 "t3" =
    [Leaderboard.make_entry "Alice" 80 "t2"; Leaderboard.make_entry "Bob" 60 "t0"].
Proof.
  pose proof (C5_add_score_case_insensitive Leaderboard.ascii_lower)
    as (Hnew & Hmatch & Hup & Hsame & Htwice & Hkeep).
  split; [reflexivity |].
  split; [exact (Hup eq_refl "t1" "t2")%string |].
  split; [exact (Hsame eq_refl "t1" "t2")%string |].
  split; [| split; [| split]].
  - apply (Htwice [Leaderboard.make_entry "Bob" 60 "t0"] "Alice" "alice" 50 80 "t1" "t2")%string.
    + simpl. lia.
    + intros e [<- | []]. reflexivity.
    + reflexivity.
    + lia.
  - rewrite (Hnew [Leaderboard.make_entry "Bob" 60 "t0"] "Alice" 50 "t1")%string.
    + reflexivity.
    + intros e [<- | []]. reflexivity.
  - refine (eq_trans (Hmatch [Leaderboard.make_entry "Bob" 60 "t0"] []
                        (Leaderboard.make_entry "Alice" 50 "t1") "alice" 80 "t2" _ _) _)%string.
    + intros e [<- | []]. reflexivity.
    + reflexivity.
    + reflexivity.
  - apply (Hkeep _ "ALICE" 80 "t3" (Leaderboard.make_entry "Alice" 80 "t2"))%string.
    + repeat constructor; unfold by_score_desc; simpl; lia.
    + simpl. lia.
    + reflexivity.
    + simpl. lia.
Defined.

Lemma eleven_calls_distinct : NoDup (map (identity_of Leaderboard.ascii_lower) eleven_calls).
Proof.
  repeat (constructor; [simpl; intuition discriminate |]). constructor.
Qed.

(** Eleven players for C6: the one with the lowest score, "e", is left out. *)
Lemma C6_add_score_top_ten_witness :
  NoDup (map (identity_of Leaderboard.ascii_lower) eleven_calls) /\
  Leaderboard.add_scores Leaderboard.ascii_lower [] eleven_calls =
    firstn 10 (Leaderboard.sort_desc (map entry_of eleven_calls)) /\
  map Leaderboard.score (Leaderboard.add_scores Leaderboard.ascii_lower [] eleven_calls) =
    [110; 100; 90; 80; 70; 60; 50; 40; 30; 20] /\
  List.length (Leaderboard.add_scores Leaderboard.ascii_lower [] eleven_calls) = 10%nat.
Proof.
  split; [exact eleven_calls_distinct |].
  pose proof (proj2 (C6_add_score_top_ten Leaderboard.ascii_lower) eleven_calls
                eleven_calls_distinct)
    as (Heq & _ & _ & Hlen).
  split; [exact Heq |]. split; [reflexivity | exact (Hlen eq_refl)].
Defined.

(** * Further properties *)

(** ** Shape of the snake during a session *)

Lemma position_eqb_eq (p q : Position) : position_eqb p q = true <-> p = q.
Proof.
  destruct p as [a b], q as [c d]. unfold position_eqb; simpl.
  rewrite andb_true_iff, !Z.eqb_eq. split; [intros [-> ->]; reflexivity | intros [= -> ->]; auto].
Qed.

Lemma handle_event_keeps (sn sn' : Snake.t) (p p' : bool) (e : Event) :
  Game.handle_event (sn, p) e = Next (sn', p') ->
  Snake.head sn' = Snake.head sn /\ Snake.body sn' = Snake.body sn /\
  Snake.direction sn' = Snake.direction sn /\ Snake.grow sn' = Snake.grow sn.
Proof.
  destruct e as [| k | pos |]; simpl; try discriminate.
  - destruct p, k; simpl; intros [= <- <-]; auto.
  - intros [= <- <-]; auto.
  - intros [= <- <-]; auto.
Qed.

Lemma handle_events_keeps (evs : list Event) :
  forall sn p sn' p',
  Game.handle_events evs (sn, p) = Next (sn', p') ->
  Snake.head sn' = Snake.head sn /\ Snake.body sn' = Snake.body sn /\
  Snake.direction sn' = Snake.direction sn /\ Snake.grow sn' = Snake.grow sn.
Proof.
  induction evs as [| e evs IH]; intros sn p sn' p'.
  - simpl. intros [= <- <-]. auto.
  - cbn [Game.handle_events].
    destruct (Game.handle_event (sn, p) e) as [[sn1 p1] | | |] eqn:He; try discriminate.
    intros Hrest. destruct (handle_event_keeps _ _ _ _ _ He) as (H1 & H2 & H3 & H4).
    destruct (IH _ _ _ _ Hrest) as (H1' & H2' & H3' & H4'). repeat split; congruence.
Qed.

Lemma move_no_reversal (s : Snake.t) :
  Snake.direction (Snake.move s) <> opposite (Snake.direction s).
Proof.
  rewrite move_unfold, commit_direction. cbn [Snake.direction].
  destruct (Snake.new_direction s), (Snake.direction s); simpl; discriminate.
Qed.

(** X1. Whatever keys arrive in a batch of events, the move that follows
    never turns the snake round: the new direction is not the opposite of
    the direction before the batch. *)
Theorem X1_no_reversal (evs : list Event) (sn sn' : Snake.t) (p p' : bool) :
  Game.handle_events evs (sn, p) = Next (sn', p') ->
  Snake.direction (Snake.move sn') <> opposite (Snake.direction sn) /\
  Snake.head (Snake.move sn') <>
    Snake.step_of (opposite (Snake.direction sn)) (Snake.head sn).
Proof.
  intros He. destruct (handle_events_keeps _ _ _ _ _ He) as (Hh & _ & Hd & _).
  pose proof (move_no_reversal sn') as Hn. rewrite Hd in Hn. split; [exact Hn |].
  rewrite move_unfold in *. cbn [Snake.head Snake.direction] in *. rewrite Hh.
  destruct (Snake.head sn) as [a b].
  destruct (Snake.direction (Snake.commit sn')), (Snake.direction sn);
    unfold Snake.step_of, GRID_SIZE; simpl in *; try congruence; intros [=]; lia.
Qed.

Lemma X1_no_reversal_witness :
  Game.handle_events [KEYDOWN K_UP; KEYDOWN K_LEFT] (Snake.init, false) =
    Next (Snake.set_new_direction LEFT Snake.init, false) /\
  Snake.direction (Snake.move (Snake.set_new_direction LEFT Snake.init)) <> LEFT.
Proof.
  split; [reflexivity |].
  exact (proj1 (X1_no_reversal [KEYDOWN K_UP; KEYDOWN K_LEFT] Snake.init
                  (Snake.set_new_direction LEFT Snake.init) false false eq_refl)).
Defined.

Lemma removelast_prefix {A : Type} (a : A) (l : list A) :
  exists x, a :: l = removelast (a :: l) ++ [x].
Proof.
  exists (last (a :: l) a). apply app_removelast_last. discriminate.
Qed.

Lemma trail_app_l (l1 l2 : list Position) : trail (l1 ++ l2) -> trail l1.
Proof.
  induction l1 as [| a [| b t] IH]; intros H; try exact I.
  simpl in H. destruct H as [Hd Ht]. split; [exact Hd | apply IH, Ht].
Qed.

(** What a move leaves behind the new head, whether growing or not, is
    a front part of the old head followed by the old body. *)
Lemma move_body_prefix (s : Snake.t) :
  exists tl, Snake.head s :: Snake.body s = Snake.body (Snake.move s) ++ tl.
Proof.
  rewrite move_unfold. cbn [Snake.body]. destruct (Snake.grow s).
  - exists []. now rewrite app_nil_r.
  - destruct (removelast_prefix (Snake.head s) (Snake.body s)) as [x Hx].
    exists [x]. exact Hx.
Qed.

Lemma step_of_aligned (d : Direction) (p : Position) :
  aligned p -> aligned (Snake.step_of d p).
Proof.
  unfold aligned, GRID_SIZE. intros [Hx Hy].
  destruct d; cbn [Snake.step_of fst snd]; unfold GRID_SIZE; split;
    try assumption; Z.div_mod_to_equations; lia.
Qed.

Lemma step_of_moves (d : Direction) (p : Position) : Snake.step_of d p <> p.
Proof.
  destruct p as [a b]. destruct d; unfold Snake.step_of, GRID_SIZE; simpl;
    intros [=]; lia.
Qed.

Lemma dead_false (sn : Snake.t) :
  Game.dead sn = false ->
  in_window (Snake.head sn) /\ ~ In (Snake.head sn) (Snake.body sn).
Proof.
  unfold Game.dead, Game.out_of_bounds, in_window, WIDTH, HEIGHT.
  rewrite !orb_false_iff, !Z.ltb_ge, !Z.geb_leb, !Z.leb_gt.
  intros [[[[H1 H2] H3] H4] Hb]. split; [lia |].
  intros Hin. assert (Hex : existsb (position_eqb (Snake.head sn)) (Snake.body sn) = true).
  { apply existsb_exists. exists (Snake.head sn). split; [exact Hin |].
    apply position_eqb_eq. reflexivity. }
  congruence.
Qed.

(** A move from a well-shaped snake, when the terminal test passes. *)
Lemma move_ok (sn : Snake.t) :
  snake_ok sn ->
  in_window (Snake.head (Snake.move sn)) ->
  ~ In (Snake.head (Snake.move sn)) (Snake.body (Snake.move sn)) ->
  snake_ok (Snake.move sn).
Proof.
  intros (Hnd & Hw & Ha & Ht & Hn) Hin Hnot.
  destruct (move_body_prefix sn) as [tl Htl].
  rewrite Htl in Hnd, Hw, Ha, Ht.
  unfold snake_ok. repeat split.
  - constructor; [exact Hnot | exact (NoDup_app_remove_r _ _ Hnd)].
  - constructor; [exact Hin | apply Forall_app in Hw; apply Hw].
  - constructor; [| apply Forall_app in Ha; apply Ha].
    rewrite move_unfold. cbn [Snake.head]. apply step_of_aligned.
    assert (Hh : In (Snake.head sn) (Snake.body (Snake.move sn) ++ tl))
      by (rewrite <- Htl; left; reflexivity).
    rewrite Forall_forall in Ha. apply Ha, Hh.
  - apply trail_app_l in Ht.
    destruct (Snake.body (Snake.move sn)) as [| b t] eqn:Hb; [exact I |].
    split; [| exact Ht].
    exists (Snake.direction (Snake.move sn)).
    simpl in Htl. injection Htl as Hhead _.
    rewrite <- Hhead. rewrite move_unfold. reflexivity.
  - unfold neck. destruct (Snake.body (Snake.move sn)) as [| b t] eqn:Hb; [exact I |].
    simpl in Htl. injection Htl as Hhead _.
    rewrite <- Hhead. rewrite move_unfold. reflexivity.
Qed.

(** ** One pass of the loop, stage by stage *)

Lemma upto_food_stages (fr : Game.Frame) (g g1 : Game.t) :
  Game.upto_food fr g = Next g1 ->
  exists sf rest sn paused paused1 sn1 food1 score1,
    Game.spawn_special fr g = Next (sf, rest) /\
    Game.handle_events (Game.events fr) (Game.snake g, Game.is_paused g) =
      Next (sn, paused) /\
    Game.pause fr paused = Next paused1 /\
    Game.food_collision (Snake.move sn) (Game.food g) (Game.score g) rest =
      Next (sn1, food1, score1) /\
    g1 = Game.make sn1 food1 sf (Game.special_spawn_timer g) score1
                   (Game.failed g) (Game.current_fps g) paused1.
Proof.
  unfold Game.upto_food.
  destruct (Game.spawn_special fr g) as [[sf rest] | | |] eqn:H1; try discriminate.
  destruct (Game.handle_events (Game.events fr) (Game.snake g, Game.is_paused g))
    as [[sn paused] | | |] eqn:H2; try discriminate.
  destruct (Game.pause fr paused) as [paused1 | | |] eqn:H3; try discriminate.
  destruct (Game.food_collision (Snake.move sn) (Game.food g) (Game.score g) rest)
    as [[[sn1 food1] score1] | | |] eqn:H4; try discriminate.
  intros [= <-]. exists sf, rest, sn, paused, paused1, sn1, food1, score1.
  repeat split; assumption.
Qed.

Lemma tick_stages (fr : Game.Frame) (g g' : Game.t) :
  Game.tick fr g = Game.Continue g' \/ Game.tick fr g = Game.Break g' ->
  exists g1,
    Game.upto_food fr g = Next g1 /\
    ((Game.tick fr g = Game.Continue g' /\
      Game.dead (Game.snake (Game.special_collision (Game.current_time fr) g1)) = false /\
      g' = Game.update_special (Game.special_collision (Game.current_time fr) g1)) \/
     (Game.tick fr g = Game.Break g' /\
      Game.dead (Game.snake (Game.special_collision (Game.current_time fr) g1)) = true /\
      g' = Game.set_failed (Game.special_collision (Game.current_time fr) g1))).
Proof.
  unfold Game.tick.
  destruct (Game.upto_food fr g) as [g1 | | |]; try (intros [H | H]; discriminate H).
  exists g1. split; [reflexivity |].
  destruct (Game.dead _) eqn:Hd; destruct H as [H | H]; try discriminate H;
    injection H as <-; [right | left]; repeat split.
Qed.

Lemma food_collision_snake (sn sn1 : Snake.t) (food food1 : Position)
    (score score1 : Z) (rest : list Z) :
  Game.food_collision sn food score rest = Next (sn1, food1, score1) ->
  Snake.head sn1 = Snake.head sn /\ Snake.body sn1 = Snake.body sn /\
  Snake.direction sn1 = Snake.direction sn /\
  (food1 = food \/ exists rest', Food.spawn rest = Some (food1, rest')).
Proof.
  unfold Game.food_collision. destruct (position_eqb _ _).
  - destruct (Food.spawn rest) as [[p tl] |] eqn:Hs; try discriminate.
    intros [= <- <- <-]. repeat split. right. exists tl. reflexivity.
  - intros [= <- <- <-]. repeat split. left. reflexivity.
Qed.

Lemma special_collision_snake (now : Z) (g : Game.t) :
  Snake.head (Game.snake (Game.special_collision now g)) = Snake.head (Game.snake g) /\
  Snake.body (Game.snake (Game.special_collision now g)) = Snake.body (Game.snake g) /\
  Snake.direction (Game.snake (Game.special_collision now g)) =
    Snake.direction (Game.snake g) /\
  Game.food (Game.special_collision now g) = Game.food g /\
  Game.is_paused (Game.special_collision now g) = Game.is_paused g /\
  Game.failed (Game.special_collision now g) = Game.failed g.
Proof.
  unfold Game.special_collision.
  destruct (Game.special_food g) as [sf |]; [| repeat split].
  destruct (Game.special_hit (Game.snake g) sf); repeat split.
Qed.

(** The geometry of a pass: the snake it ends with is the snake it
    started with, moved once after the keys were read. *)
Lemma tick_snake (fr : Game.Frame) (g g' : Game.t) :
  Game.tick fr g = Game.Continue g' \/ Game.tick fr g = Game.Break g' ->
  exists sn paused,
    Game.handle_events (Game.events fr) (Game.snake g, Game.is_paused g) =
      Next (sn, paused) /\
    Snake.head (Game.snake g') = Snake.head (Snake.move sn) /\
    Snake.body (Game.snake g') = Snake.body (Snake.move sn) /\
    Snake.direction (Game.snake g') = Snake.direction (Snake.move sn) /\
    (Game.tick fr g = Game.Continue g' -> Game.dead (Game.snake g') = false) /\
    (Game.tick fr g = Game.Break g' -> Game.dead (Game.snake g') = true) /\
    (Game.food g' = Game.food g \/
     exists ent rest, Food.spawn ent = Some (Game.food g', rest)).
Proof.
  intros Ht. destruct (tick_stages fr g g' Ht) as (g1 & Hu & Hcase).
  destruct (upto_food_stages fr g g1 Hu)
    as (sf & rest & sn & paused & paused1 & sn1 & food1 & score1 & _ & Hev & _ & Hfc & ->).
  destruct (food_collision_snake _ _ _ _ _ _ _ Hfc) as (Hh & Hb & Hd & Hfood).
  exists sn, paused. split; [exact Hev |].
  set (g1 := Game.make sn1 food1 sf _ score1 _ _ paused1) in *.
  destruct (special_collision_snake (Game.current_time fr) g1) as (Sh & Sb & Sd & Sf & _ & _).
  assert (Hdead_eq : forall g2, Snake.head (Game.snake g2) =
            Snake.head (Game.snake (Game.special_collision (Game.current_time fr) g1)) ->
          Snake.body (Game.snake g2) =
            Snake.body (Game.snake (Game.special_collision (Game.current_time fr) g1)) ->
          Game.dead (Game.snake g2) =
            Game.dead (Game.snake (Game.special_collision (Game.current_time fr) g1))).
  { intros g2 E1 E2. unfold Game.dead. rewrite E1, E2. reflexivity. }
  assert (Hfood' : Game.food g1 = Game.food g \/
                   exists ent rest0, Food.spawn ent = Some (Game.food g1, rest0)).
  { destruct Hfood as [-> | [rest' Hs]]; [left; reflexivity |].
    right. exists rest, rest'. exact Hs. }
  destruct Hcase as [(Hc & Hdead & ->) | (Hc & Hdead & ->)];
    cbn [Game.update_special Game.set_failed Game.snake Game.food];
    rewrite Sh, Sb, Sd, Sf; cbn [g1 Game.snake Game.food];
    rewrite Hh, Hb, Hd; repeat split; try exact Hfood'.
  - intros _. rewrite <- Hdead. unfold Game.dead. rewrite Sh, Sb. reflexivity.
  - intros H. rewrite Hc in H. discriminate H.
  - intros H. rewrite Hc in H. discriminate H.
  - intros _. rewrite <- Hdead. unfold Game.dead. rewrite Sh, Sb. reflexivity.
Qed.

(** ** Invariants of a session *)

Lemma snake_ok_ext (a b : Snake.t) :
  Snake.head b = Snake.head a -> Snake.body b = Snake.body a ->
  Snake.direction b = Snake.direction a -> snake_ok a -> snake_ok b.
Proof.
  unfold snake_ok, neck. intros -> -> ->. auto.
Qed.

Lemma session_snake_ok (n : nat) (g : Game.t) :
  Game.reaches n g -> snake_ok (Game.snake g).
Proof.
  induction 1 as [speed ticks entropy g Hs | n g fr g' _ IH Ht].
  - unfold Game.start in Hs. destruct (Food.spawn entropy) as [[p rest] |]; [| discriminate].
    injection Hs as <-. cbn [Game.snake]. unfold snake_ok, Snake.init.
    cbn [Snake.head Snake.body]. repeat split.
    + constructor; [intros [] | constructor].
    + constructor; [| constructor]. unfold in_window, WIDTH, HEIGHT. cbn [fst snd].
      change (800 / 2) with 400. change (600 / 2) with 300. lia.
    + constructor; [| constructor]. split; reflexivity.
  - destruct (tick_snake fr g g' (or_introl Ht))
      as (sn & paused & Hev & Hh & Hb & Hd & Halive & _ & _).
    destruct (handle_events_keeps _ _ _ _ _ Hev) as (Kh & Kb & Kd & _).
    pose proof (snake_ok_ext _ sn Kh Kb Kd IH) as Hsn.
    destruct (dead_false _ (Halive Ht)) as [Hwin Hnot].
    rewrite Hh in Hwin. rewrite Hh, Hb in Hnot.
    exact (snake_ok_ext _ _ Hh Hb Hd (move_ok sn Hsn Hwin Hnot)).
Qed.

Lemma spawn_free_cell (entropy : list Z) (p : Position) (rest : list Z) :
  Food.spawn entropy = Some (p, rest) -> free_cell p.
Proof.
  intros Hs. destruct (Food_spawn_spec _ _ _ Hs) as (Hc & (i & Hi & Hx) & (j & Hj & Hy)).
  unfold free_cell, aligned, in_window, GRID_SIZE, WIDTH, HEIGHT. rewrite Hx, Hy.
  repeat split; try lia; try exact Hc.
  - rewrite Z.mul_comm. apply Z.mod_mul. lia.
  - rewrite Z.mul_comm. apply Z.mod_mul. lia.
Qed.

(** X2. In every state of a running session the head and all body cells
    lie inside the window and no two of them coincide: the snake never
    overlaps itself while the loop goes on. *)
Theorem X2_snake_inside_and_simple (n : nat) (g : Game.t) :
  Game.reaches n g ->
  NoDup (Snake.head (Game.snake g) :: Snake.body (Game.snake g)) /\
  Forall in_window (Snake.head (Game.snake g) :: Snake.body (Game.snake g)).
Proof.
  intros Hr. destruct (session_snake_ok n g Hr) as (H1 & H2 & _). auto.
Qed.

Lemma X2_snake_inside_and_simple_witness :
  NoDup (Snake.head (Game.snake demo_after_second) ::
         Snake.body (Game.snake demo_after_second)) /\
  Forall in_window (Snake.head (Game.snake demo_after_second) ::
                    Snake.body (Game.snake demo_after_second)).
Proof.
  exact (X2_snake_inside_and_simple 0 demo_after_second demo_reaches_second).
Defined.

(** X3. In every state of a running session the head, every body cell
    and the food sit on cells of the grid: all coordinates are multiples
    of [GRID_SIZE]. *)
Theorem X3_cells_on_grid (n : nat) (g : Game.t) :
  Game.reaches n g ->
  Forall aligned (Snake.head (Game.snake g) :: Snake.body (Game.snake g)) /\
  aligned (Game.food g).
Proof.
  intros Hr. split; [apply (session_snake_ok n g Hr) |].
  induction Hr as [speed ticks entropy g Hs | n g fr g' _ IH Ht].
  - unfold Game.start in Hs.
    destruct (Food.spawn entropy) as [[p rest] |] eqn:Hsp; [| discriminate].
    injection Hs as <-. apply (spawn_free_cell _ _ _ Hsp).
  - destruct (tick_snake fr g g' (or_introl Ht)) as (_ & _ & _ & _ & _ & _ & _ & _ & Hf).
    destruct Hf as [-> | (ent & rest & Hsp)]; [exact IH | apply (spawn_free_cell _ _ _ Hsp)].
Qed.

Lemma X3_cells_on_grid_witness :
  Forall aligned (Snake.head (Game.snake demo_after_second) ::
                  Snake.body (Game.snake demo_after_second)) /\
  aligned (Game.food demo_after_second).
Proof.
  exact (X3_cells_on_grid 0 demo_after_second demo_reaches_second).
Defined.

(** X4. In every state of a running session the food lies inside the
    window on a cell that overlaps neither the pause rectangle nor the
    score rectangle. *)
Theorem X4_food_clear_of_rectangles (n : nat) (g : Game.t) :
  Game.reaches n g ->
  in_window (Game.food g) /\
  Rect.colliderect (Food.rect_at (Game.food g)) forbidden_pause = false /\
  Rect.colliderect (Food.rect_at (Game.food g)) forbidden_score = false.
Proof.
  intros Hr.
  assert (Hfree : free_cell (Game.food g)).
  { induction Hr as [speed ticks entropy g Hs | n g fr g' _ IH Ht].
    - unfold Game.start in Hs.
      destruct (Food.spawn entropy) as [[p rest] |] eqn:Hsp; [| discriminate].
      injection Hs as <-. apply (spawn_free_cell _ _ _ Hsp).
    - destruct (tick_snake fr g g' (or_introl Ht)) as (_ & _ & _ & _ & _ & _ & _ & _ & Hf).
      destruct Hf as [-> | (ent & rest & Hsp)]; [exact IH | apply (spawn_free_cell _ _ _ Hsp)]. }
  destruct Hfree as (_ & Hw & Hc). split; [exact Hw |].
  unfold hits_forbidden in Hc. apply orb_false_iff in Hc. exact Hc.
Qed.

Lemma X4_food_clear_of_rectangles_witness :
  in_window (Game.food demo_after_first) /\
  Rect.colliderect (Food.rect_at (Game.food demo_after_first)) forbidden_pause = false /\
  Rect.colliderect (Food.rect_at (Game.food demo_after_first)) forbidden_score = false.
Proof.
  exact (X4_food_clear_of_rectangles 0 demo_after_first demo_reaches_first).
Defined.

(** X5. In every state of a running session the body is the trail of
    the head: each cell of head-then-body is exactly one grid step away
    from the next, and the first body cell lies right behind the head
    with respect to the current direction. *)
Theorem X5_body_is_trail (n : nat) (g : Game.t) :
  Game.reaches n g ->
  trail (Snake.head (Game.snake g) :: Snake.body (Game.snake g)) /\
  neck (Game.snake g).
Proof.
  intros Hr. destruct (session_snake_ok n g Hr) as (_ & _ & _ & H4 & H5). auto.
Qed.

Lemma X5_body_is_trail_witness :
  trail (Snake.head (Game.snake demo_after_second) ::
         Snake.body (Game.snake demo_after_second)) /\
  neck (Game.snake demo_after_second).
Proof.
  exact (X5_body_is_trail 0 demo_after_second demo_reaches_second).
Defined.

Lemma three_steps (d1 d2 d3 : Direction) (p : Position) :
  Snake.step_of d1 (Snake.step_of d2 (Snake.step_of d3 p)) <> p.
Proof.
  destruct p as [a b]. destruct d1, d2, d3; unfold Snake.step_of, GRID_SIZE; simpl;
    intros [=]; lia.
Qed.

Lemma step_back (d e : Direction) (p : Position) :
  Snake.step_of e (Snake.step_of d p) = p -> e = opposite d.
Proof.
  destruct p as [a b]. destruct d, e; unfold Snake.step_of, GRID_SIZE; simpl;
    intros [=]; try reflexivity; lia.
Qed.

(** The head never lands on one of the three cells that follow it. *)
Lemma no_bite_close (sn : Snake.t) (x : Position) :
  snake_ok sn ->
  In x (firstn 3 (Snake.head sn :: Snake.body sn)) ->
  Snake.head (Snake.move sn) <> x.
Proof.
  intros (_ & _ & _ & Ht & Hn) Hx.
  pose proof (move_no_reversal sn) as Hrev.
  rewrite move_unfold in *. cbn [Snake.head Snake.direction] in *.
  set (d' := Snake.direction (Snake.commit sn)) in *.
  unfold neck in Hn.
  destruct (Snake.body sn) as [| b0 [| b1 t]]; cbn [firstn In] in Hx.
  - destruct Hx as [<- | []]. apply step_of_moves.
  - destruct Hx as [<- | [<- | []]]; [apply step_of_moves |].
    rewrite Hn. intros Heq. apply Hrev. exact (step_back _ _ _ Heq).
  - destruct Hx as [<- | [<- | [<- | []]]]; [apply step_of_moves | |].
    + rewrite Hn. intros Heq. apply Hrev. exact (step_back _ _ _ Heq).
    + simpl in Ht. destruct Ht as [_ [[e He] _]].
      rewrite Hn, He. apply three_steps.
Qed.

(** X6. A snake whose body has at most three cells after its move cannot
    have run into itself: when a pass of a session ends the game with
    such a snake, the head has left the window. *)
Theorem X6_short_snake_dies_at_wall (n : nat) (g g' : Game.t) (fr : Game.Frame) :
  Game.reaches n g ->
  Game.tick fr g = Game.Break g' ->
  (List.length (Snake.body (Game.snake g')) <= 3)%nat ->
  Game.out_of_bounds (Snake.head (Game.snake g')) = true.
Proof.
  intros Hr Ht Hlen.
  destruct (tick_snake fr g g' (or_intror Ht))
    as (sn & paused & Hev & Hh & Hb & _ & _ & Hdead & _).
  destruct (handle_events_keeps _ _ _ _ _ Hev) as (Kh & Kb & Kd & _).
  pose proof (snake_ok_ext _ sn Kh Kb Kd (session_snake_ok n g Hr)) as Hsn.
  specialize (Hdead Ht). unfold Game.dead in Hdead.
  apply orb_true_iff in Hdead. destruct Hdead as [Hout | Hbite]; [exact Hout |].
  exfalso. apply existsb_exists in Hbite. destruct Hbite as (x & Hx & Heq).
  apply position_eqb_eq in Heq. rewrite Hh in Heq. rewrite Hb in Hx, Hlen.
  apply (no_bite_close sn x Hsn); [| exact Heq].
  destruct (move_body_prefix sn) as [tl Htl]. rewrite Htl.
  rewrite firstn_app. apply in_or_app. left.
  rewrite firstn_all2 by exact Hlen. exact Hx.
Qed.

Lemma run_frames_reachable (frs : list Game.Frame) :
  forall g g', Game.reachable g -> run_frames frs g = Some g' -> Game.reachable g'.
Proof.
  induction frs as [| fr frs IH]; intros g g' Hr.
  - simpl. intros [= <-]. exact Hr.
  - cbn [run_frames]. destruct (Game.tick fr g) as [g1 | g1 | c] eqn:Ht; try discriminate.
    apply IH. destruct Hr as [n Hn].
    exists (if Game.takes_special fr g then S n else n).
    exact (Game.reaches_tick n g fr g1 Hn Ht).
Qed.

Lemma wall_start_reachable : Game.reachable wall_start.
Proof.
  exists 0%nat. apply Game.reaches_start with (game_speed := (1 # 10)%Q) (ticks := 0)
    (entropy := [0; 29]). reflexivity.
Qed.

Lemma X6_short_snake_dies_at_wall_witness :
  run_frames wall_frames wall_start = Some wall_before /\
  Game.tick (Game.frame 100 [] Resume []) wall_before = Game.Break wall_after /\
  Game.out_of_bounds (Snake.head (Game.snake wall_after)) = true.
Proof.
  assert (Hrun : run_frames wall_frames wall_start = Some wall_before) by reflexivity.
  split; [exact Hrun |]. split; [reflexivity |].
  destruct (run_frames_reachable wall_frames wall_start wall_before
              wall_start_reachable Hrun) as [n Hn].
  exact (X6_short_snake_dies_at_wall n wall_before wall_after
           (Game.frame 100 [] Resume []) Hn eq_refl (le_S _ _ (le_S _ _ (le_S _ _ (le_n 0))))).
Defined.

(** ** The special food during a session *)

Lemma spawn_special_cases (fr : Game.Frame) (g : Game.t)
    (sf : option SpecialFood.t) (rest : list Z) :
  Game.spawn_special fr g = Next (sf, rest) ->
  (sf = Game.special_food g /\
   (Game.special_food g = None -> Game.current_time fr - Game.special_spawn_timer g < 4000)) \/
  (Game.special_food g = None /\
   4000 <= Game.current_time fr - Game.special_spawn_timer g /\
   exists s, sf = Some s /\ SpecialFood.init (Game.entropy fr) = Some (s, rest)).
Proof.
  unfold Game.spawn_special. destruct (Game.special_food g) as [s |] eqn:Hs.
  - intros [= <- <-]. left. split; [reflexivity | discriminate].
  - destruct (Z.geb_spec (Game.current_time fr - Game.special_spawn_timer g) 4000).
    + destruct (SpecialFood.init (Game.entropy fr)) as [[s tl] |] eqn:Hi; try discriminate.
      intros [= <- <-]. right. split; [reflexivity |]. split; [lia |].
      exists s. split; reflexivity.
    + intros [= <- <-]. left. split; [reflexivity | intros _; lia].
Qed.

(** What a pass does to the special food and its timer. *)
Lemma tick_special (fr : Game.Frame) (g g' : Game.t) :
  Game.tick fr g = Game.Continue g' ->
  exists sf rest,
    Game.spawn_special fr g = Next (sf, rest) /\
    ((Game.takes_special fr g = true /\ Game.special_food g' = None /\
      Game.special_spawn_timer g' = Game.current_time fr) \/
     (Game.takes_special fr g = false /\
      Game.special_food g' = option_map SpecialFood.update sf /\
      Game.special_spawn_timer g' = Game.special_spawn_timer g)).
Proof.
  intros Ht. destruct (tick_stages fr g g' (or_introl Ht)) as (g1 & Hu & Hcase).
  destruct Hcase as [(_ & _ & ->) | (Hb & _)]; [| rewrite Ht in Hb; discriminate Hb].
  unfold Game.takes_special. rewrite Hu.
  destruct (upto_food_stages fr g g1 Hu)
    as (sf & rest & sn & paused & paused1 & sn1 & food1 & score1 & Hsp & _ & _ & _ & ->).
  exists sf, rest. split; [exact Hsp |].
  unfold Game.special_collision. cbn [Game.special_food Game.snake].
  destruct sf as [s |]; [| right; repeat split].
  destruct (Game.special_hit sn1 s); [left | right]; repeat split.
Qed.

Lemma session_special_reachable (n : nat) (g : Game.t) (sf : SpecialFood.t) :
  Game.reaches n g -> Game.special_food g = Some sf -> SpecialFood.reachable sf.
Proof.
  intros Hr. revert sf. induction Hr as [speed ticks entropy g Hs | n g fr g' _ IH Ht].
  - unfold Game.start in Hs. destruct (Food.spawn entropy) as [[p rest] |]; [| discriminate].
    injection Hs as <-. discriminate.
  - intros sf' Hsf.
    destruct (tick_special fr g g' Ht) as (sf & rest & Hsp & Hcase).
    destruct Hcase as [(_ & Hnone & _) | (_ & Hupd & _)]; [congruence |].
    rewrite Hupd in Hsf. destruct sf as [s |]; [| discriminate].
    injection Hsf as <-. apply SpecialFood.reach_update.
    destruct (spawn_special_cases fr g _ _ Hsp) as [[Hold _] | (_ & _ & s' & Hs' & Hinit)].
    + apply IH. symmetry. exact Hold.
    + injection Hs' as ->. exact (SpecialFood.reach_init _ _ _ Hinit).
Qed.

(** X7. In every state of a running session the special food, when there
    is one, overlaps neither exclusion rectangle, lies at most five
    pixels outside the field it bounces in, and still has velocity
    components among -5, -4, 4 and 5. *)
Theorem X7_special_food_in_session (n : nat) (g : Game.t) (sf : SpecialFood.t) :
  Game.reaches n g ->
  Game.special_food g = Some sf ->
  Rect.colliderect (SpecialFood.get_rect sf) forbidden_pause = false /\
  Rect.colliderect (SpecialFood.get_rect sf) forbidden_score = false /\
  -5 <= SpecialFood.x sf <= WIDTH - 2 * GRID_SIZE + 5 /\
  -5 <= SpecialFood.y sf <= HEIGHT - GRID_SIZE + 5 /\
  In (SpecialFood.dx sf) SpecialFood.speeds /\
  In (SpecialFood.dy sf) SpecialFood.speeds.
Proof.
  intros Hr Hsf.
  pose proof (SpecialFood_reachable_Inv sf (session_special_reachable n g sf Hr Hsf))
    as (Hdx & Hdy & (_ & _ & Hx & Hy) & Hc & _).
  unfold SpecialFoodInv.clear, hits_forbidden in Hc. apply orb_false_iff in Hc.
  destruct Hc as [Hp Hs]. repeat split; try assumption.
  - clear - Hdx Hx. revert Hdx Hx. generalize (SpecialFood.dx sf). intros d Hd Hx.
    speed_cases Hd; simpl Z.abs in Hx; lia.
  - clear - Hdx Hx. revert Hdx Hx. unfold WIDTH, GRID_SIZE.
    generalize (SpecialFood.dx sf). intros d Hd Hx.
    speed_cases Hd; simpl Z.abs in Hx; lia.
  - clear - Hdy Hy. revert Hdy Hy. generalize (SpecialFood.dy sf). intros d Hd Hy.
    speed_cases Hd; simpl Z.abs in Hy; lia.
  - clear - Hdy Hy. revert Hdy Hy. unfold HEIGHT, GRID_SIZE.
    generalize (SpecialFood.dy sf). intros d Hd Hy.
    speed_cases Hd; simpl Z.abs in Hy; lia.
Qed.

Lemma special_after_reaches : Game.reaches 0 special_after.
Proof.
  assert (H0 : Game.reaches 0 wall_start).
  { apply Game.reaches_start with (game_speed := (1 # 10)%Q) (ticks := 0)
      (entropy := [0; 29]). reflexivity. }
  exact (Game.reaches_tick 0 wall_start special_frame special_after H0 eq_refl).
Qed.

Lemma X7_special_food_in_session_witness :
  Game.special_food special_after = Some (SpecialFood.make 195 195 (-5) (-5)) /\
  Rect.colliderect (SpecialFood.get_rect (SpecialFood.make 195 195 (-5) (-5)))
    forbidden_score = false.
Proof.
  split; [reflexivity |].
  exact (proj1 (proj2 (X7_special_food_in_session 0 special_after
                         (SpecialFood.make 195 195 (-5) (-5))
                         special_after_reaches eq_refl))).
Defined.

Lemma quiet_pass (fr : Game.Frame) (g g' : Game.t) :
  Game.special_food g = None ->
  Game.current_time fr - Game.special_spawn_timer g < 4000 ->
  Game.tick fr g = Game.Continue g' ->
  Game.special_food g' = None /\
  Game.special_spawn_timer g' = Game.special_spawn_timer g.
Proof.
  intros Hnone Hlt Ht.
  destruct (tick_special fr g g' Ht) as (sf & rest & Hsp & Hcase).
  destruct (spawn_special_cases fr g _ _ Hsp) as [[-> _] | (_ & Hge & _)]; [| lia].
  unfold Game.takes_special in Hcase.
  destruct Hcase as [(Htk & _) | (_ & Hupd & Htm)].
  - destruct (tick_stages fr g g' (or_introl Ht)) as (g1 & Hu & _).
    rewrite Hu in Htk.
    destruct (upto_food_stages fr g g1 Hu)
      as (sf & rest' & sn & paused & paused1 & sn1 & food1 & score1 & Hsp' & _ & _ & _ & ->).
    rewrite Hsp in Hsp'. injection Hsp' as <- _.
    cbn [Game.special_food] in Htk. rewrite Hnone in Htk. discriminate Htk.
  - rewrite Hnone in Hupd. auto.
Qed.

(** X8. The cooldown of the special food.  A pass that takes the special
    food removes it and restarts the timer at the clock of that pass;
    and as long as the clock of the following passes stays less than
    4000 ms after the timer, no special food is there.  The same holds
    from any state without special food, in particular from the start of
    a session. *)
Theorem X8_special_food_cooldown :
  (forall (fr : Game.Frame) (g g1 : Game.t),
     Game.tick fr g = Game.Continue g1 ->
     Game.takes_special fr g = true ->
     Game.special_food g1 = None /\
     Game.special_spawn_timer g1 = Game.current_time fr) /\
  (forall (frs : list Game.Frame) (g g' : Game.t),
     Game.special_food g = None ->
     Forall (fun f => Game.current_time f - Game.special_spawn_timer g < 4000) frs ->
     run_frames frs g = Some g' ->
     Game.special_food g' = None /\
     Game.special_spawn_timer g' = Game.special_spawn_timer g).
Proof.
  split.
  - intros fr g g1 Ht Htk.
    destruct (tick_special fr g g1 Ht) as (sf & rest & _ & [(_ & H1 & H2) | (Hno & _)]);
      [auto | congruence].
  - induction frs as [| fr frs IH]; intros g g' Hnone Hall.
    + simpl. intros [= <-]. auto.
    + cbn [run_frames]. destruct (Game.tick fr g) as [g1 | g1 | c] eqn:Ht; try discriminate.
      intros Hrun. inversion Hall as [| f fs Hf Hfs]; subst.
      destruct (quiet_pass fr g g1 Hnone Hf Ht) as [Hn1 Ht1].
      rewrite <- Ht1. apply (IH g1 g' Hn1); [| exact Hrun].
      rewrite Ht1. exact Hfs.
Qed.

Lemma X8_special_food_cooldown_witness :
  Game.tick bite_frame bite_before = Game.Continue bite_after /\
  Game.takes_special bite_frame bite_before = true /\
  Game.special_spawn_timer bite_after = 5000 /\
  exists g, run_frames quiet_frames bite_after = Some g /\ Game.special_food g = None.
Proof.
  pose proof X8_special_food_cooldown as [Htake Hquiet].
  destruct (Htake bite_frame bite_before bite_after eq_refl eq_refl) as [Hnone Htimer].
  split; [reflexivity |]. split; [reflexivity |]. split; [exact Htimer |].
  assert (Hall : Forall (fun f => Game.current_time f - Game.special_spawn_timer bite_after < 4000)
                   quiet_frames).
  { repeat constructor. }
  destruct (run_frames quiet_frames bite_after) as [g |] eqn:Hrun; [| discriminate].
  exists g. split; [reflexivity |].
  exact (proj1 (Hquiet quiet_frames bite_after g Hnone Hall Hrun)).
Defined.

(** ** Events, pause and exit *)

Lemma handle_events_paused (evs : list Event) (sn sn' : Snake.t) (p' : bool) :
  Game.handle_events evs (sn, true) = Next (sn', p') -> sn' = sn /\ p' = true.
Proof.
  induction evs as [| e evs IH]; [simpl; intros [= <- <-]; auto |].
  cbn [Game.handle_events].
  destruct e as [| k | pos |]; cbn [Game.handle_event negb]; try discriminate.
  - destruct (Game.is_K_p k); exact IH.
  - destruct (Rect.collidepoint _ _); exact IH.
  - exact IH.
Qed.

(** X9. Within one batch of events, everything that follows a pause
    request (the P key, or a click inside the pause button) is lost for
    the snake: arrow keys that arrive after it do not reach the direction
    buffer, and the batch ends with the pause flag set. *)
Theorem X9_keys_after_pause_dropped (e : Event) (evs : list Event)
    (sn sn' : Snake.t) (p p' : bool) :
  pauses e = true ->
  Game.handle_events (e :: evs) (sn, p) = Next (sn', p') ->
  sn' = sn /\ p' = true.
Proof.
  intros Hp. cbn [Game.handle_events].
  destruct e as [| k | pos |]; try discriminate Hp; cbn [Game.handle_event].
  - destruct k; try discriminate Hp. cbn [Game.key_direction Game.is_K_p].
    replace (if negb p then sn else sn) with sn by (destruct p; reflexivity).
    apply handle_events_paused.
  - simpl in Hp. rewrite Hp. apply handle_events_paused.
Qed.

Lemma X9_keys_after_pause_dropped_witness :
  Game.handle_events [KEYDOWN K_p; KEYDOWN K_UP] (Snake.init, false) =
    Next (Snake.init, true) /\
  Game.handle_events [KEYDOWN K_UP; KEYDOWN K_p] (Snake.init, false) =
    Next (Snake.set_new_direction UP Snake.init, true).
Proof.
  assert (H : Game.handle_events [KEYDOWN K_p; KEYDOWN K_UP] (Snake.init, false) =
              Next (Snake.init, true)) by reflexivity.
  split; [| reflexivity].
  destruct (X9_keys_after_pause_dropped (KEYDOWN K_p) [KEYDOWN K_UP] Snake.init
              Snake.init false true eq_refl H) as [_ _].
  exact H.
Defined.

(** X10. A batch of events ends the process exactly when it holds a QUIT
    event, whatever else it holds and whether or not the game is paused;
    the event loop itself never returns to the menu. *)
Theorem X10_quit_exits (evs : list Event) (st : Snake.t * bool) :
  (Game.handle_events evs st = Exit <-> existsb is_QUIT evs = true) /\
  Game.handle_events evs st <> Return /\
  Game.handle_events evs st <> Starved.
Proof.
  revert st. induction evs as [| e evs IH]; intros [sn p].
  - simpl. repeat split; try discriminate.
  - cbn [Game.handle_events existsb].
    destruct e as [| k | pos |]; cbn [Game.handle_event is_QUIT orb].
    + repeat split; try discriminate; reflexivity.
    + apply IH.
    + apply IH.
    + apply IH.
Qed.

Lemma tick_flags (fr : Game.Frame) (g g' : Game.t) :
  Game.tick fr g = Game.Continue g' \/ Game.tick fr g = Game.Break g' ->
  Game.is_paused g' = false /\
  (Game.tick fr g = Game.Continue g' -> Game.failed g' = Game.failed g) /\
  (Game.tick fr g = Game.Break g' -> Game.failed g' = true).
Proof.
  intros Ht. destruct (tick_stages fr g g' Ht) as (g1 & Hu & Hcase).
  destruct (upto_food_stages fr g g1 Hu)
    as (sf & rest & sn & paused & paused1 & sn1 & food1 & score1 & _ & _ & Hp & _ & ->).
  assert (Hp1 : paused1 = false).
  { unfold Game.pause in Hp. destruct paused.
    - destruct (Game.pause_result fr); try discriminate. now injection Hp as <-.
    - now injection Hp as <-. }
  subst paused1.
  set (g1 := Game.make sn1 food1 sf _ score1 _ _ false) in *.
  destruct (special_collision_snake (Game.current_time fr) g1) as (_ & _ & _ & _ & Sp & Sf).
  destruct Hcase as [(Hc & _ & ->) | (Hc & _ & ->)];
    cbn [Game.update_special Game.set_failed Game.is_paused Game.failed];
    rewrite ?Sp, ?Sf; cbn [g1 Game.is_paused Game.failed]; repeat split;
    try (intros H; rewrite Hc in H; discriminate H).
Qed.

(** X11. At the top of every pass of a running session the pause flag
    and the failed flag are off; a resumed pause leaves the flag off, and
    the failed flag is set by the pass that breaks out of the loop. *)
Theorem X11_session_flags (n : nat) (g : Game.t) :
  Game.reaches n g ->
  Game.is_paused g = false /\ Game.failed g = false /\
  (forall fr g', Game.tick fr g = Game.Break g' -> Game.failed g' = true).
Proof.
  intros Hr. split; [| split].
  - induction Hr as [speed ticks entropy g Hs | n g fr g' _ _ Ht].
    + unfold Game.start in Hs. destruct (Food.spawn entropy) as [[p rest] |]; [| discriminate].
      now injection Hs as <-.
    + apply (tick_flags fr g g' (or_introl Ht)).
  - induction Hr as [speed ticks entropy g Hs | n g fr g' _ IH Ht].
    + unfold Game.start in Hs. destruct (Food.spawn entropy) as [[p rest] |]; [| discriminate].
      now injection Hs as <-.
    + destruct (tick_flags fr g g' (or_introl Ht)) as (_ & Hf & _).
      rewrite (Hf Ht). exact IH.
  - intros fr g' Ht. apply (tick_flags fr g g' (or_intror Ht)). exact Ht.
Qed.

Lemma X11_session_flags_witness :
  Game.is_paused demo_after_second = false /\ Game.failed demo_after_second = false.
Proof.
  destruct (X11_session_flags 0 demo_after_second demo_reaches_second) as (H1 & H2 & _).
  split; [exact H1 | exact H2].
Defined.

(** ** Identities on the leaderboard *)

Section Identities.

(** [str.lower]. *)
Variable lower : string -> string.

Lemma same_user_identity (u : string) (e : Leaderboard.entry) :
  Leaderboard.same_user lower u e = true <-> identity lower e = lower u.
Proof. unfold Leaderboard.same_user, identity. apply String.eqb_eq. Qed.

Lemma find_split {A : Type} (f : A -> bool) (l : list A) (x : A) :
  find f l = Some x ->
  exists l1 l2, l = l1 ++ x :: l2 /\ (forall y, In y l1 -> f y = false) /\ f x = true.
Proof.
  induction l as [| h t IH]; [discriminate |].
  simpl. destruct (f h) eqn:Hh.
  - intros [= <-]. exists [], t. repeat split; [intros y [] | exact Hh].
  - intros Hf. destruct (IH Hf) as (l1 & l2 & -> & Hn & Hx).
    exists (h :: l1), l2. repeat split; [| exact Hx].
    intros y [<- | Hy]; [exact Hh | apply Hn, Hy].
Qed.

(** In a board without double identities the first match is the only one. *)
Lemma unique_match (u : string) (l1 l2 : list Leaderboard.entry)
    (m x : Leaderboard.entry) :
  NoDup (map (identity lower) (l1 ++ m :: l2)) ->
  (forall y, In y l1 -> Leaderboard.same_user lower u y = false) ->
  identity lower m = lower u ->
  In x (l1 ++ m :: l2) -> Leaderboard.same_user lower u x = true -> x = m.
Proof.
  intros Hnd Hn Hm Hx Hux. apply in_app_or in Hx.
  destruct Hx as [Hx | [Hx | Hx]].
  - rewrite (Hn x Hx) in Hux. discriminate Hux.
  - symmetry. exact Hx.
  - exfalso. rewrite map_app in Hnd. simpl in Hnd.
    apply NoDup_remove_2 in Hnd. apply Hnd, in_or_app. right.
    rewrite Hm. apply same_user_identity in Hux. rewrite <- Hux.
    apply in_map, Hx.
Qed.

(** The list [add_score] sorts and cuts, with the record [m] that stands
    for the player afterwards. *)
Lemma add_score_shape (scores : list Leaderboard.entry) (u : string) (sc : Z)
    (now : string) :
  exists L m,
    Leaderboard.add_score lower scores u sc now = firstn 10 (Leaderboard.sort_desc L) /\
    In m L /\ Leaderboard.same_user lower u m = true /\ sc <= Leaderboard.score m /\
    (forall x, In x L -> x = m \/ In x scores) /\
    (forall ex, In ex scores -> Leaderboard.same_user lower u ex = true ->
       unique_ids lower scores ->
       Leaderboard.score ex <= Leaderboard.score m /\
       Leaderboard.username m = Leaderboard.username ex) /\
    (unique_ids lower scores ->
       unique_ids lower L /\
       forall x, In x L -> Leaderboard.same_user lower u x = true -> x = m).
Proof.
  unfold Leaderboard.add_score.
  destruct (find (Leaderboard.same_user lower u) scores) as [ex |] eqn:Hf.
  - destruct (find_split _ _ _ Hf) as (l1 & l2 & -> & Hn & Hex).
    pose proof (proj1 (same_user_identity u ex) Hex) as Hid.
    destruct (Z.gtb_spec sc (Leaderboard.score ex)) as [Hgt | Hle].
    + rewrite (update_first_match lower u sc now l1 l2 ex Hn Hex).
      set (m := Leaderboard.make_entry (Leaderboard.username ex) sc now).
      assert (Hmid : identity lower m = lower u) by exact Hid.
      assert (Hkeys : map (identity lower) (l1 ++ m :: l2) = map (identity lower) (l1 ++ ex :: l2)).
      { rewrite !map_app. reflexivity. }
      exists (l1 ++ m :: l2), m. split; [reflexivity |].
      split; [apply in_or_app; right; left; reflexivity |].
      split; [apply same_user_identity; exact Hmid |].
      split; [simpl; lia |]. split; [| split].
      * intros x Hx. apply in_app_or in Hx. destruct Hx as [Hx | [Hx | Hx]].
        -- right. apply in_or_app. left. exact Hx.
        -- left. symmetry. exact Hx.
        -- right. apply in_or_app. right. right. exact Hx.
      * intros e He Hue Hun.
        rewrite (unique_match u l1 l2 ex e Hun Hn Hid He Hue). simpl. split; [lia | reflexivity].
      * intros Hun. unfold unique_ids in *. rewrite Hkeys. split; [exact Hun |].
        intros x Hx Hux. rewrite <- Hkeys in Hun.
        exact (unique_match u l1 l2 m x Hun Hn Hmid Hx Hux).
    + exists (l1 ++ ex :: l2), ex. split; [reflexivity |].
      split; [apply in_or_app; right; left; reflexivity |].
      split; [exact Hex |]. split; [lia |]. split; [| split].
      * intros x Hx. right. exact Hx.
      * intros e He Hue Hun.
        rewrite (unique_match u l1 l2 ex e Hun Hn Hid He Hue). split; [lia | reflexivity].
      * intros Hun. split; [exact Hun |].
        intros x Hx Hux. exact (unique_match u l1 l2 ex x Hun Hn Hid Hx Hux).
  - pose proof (find_none _ _ Hf) as Hn.
    set (m := Leaderboard.make_entry u sc now).
    assert (Hm : Leaderboard.same_user lower u m = true).
    { apply same_user_identity. reflexivity. }
    exists (scores ++ [m]), m. split; [reflexivity |].
    split; [apply in_or_app; right; left; reflexivity |].
    split; [exact Hm |]. split; [simpl; lia |]. split; [| split].
    + intros x Hx. apply in_app_or in Hx. destruct Hx as [Hx | [Hx | []]]; auto.
    + intros e He Hue _. rewrite (Hn e He) in Hue. discriminate Hue.
    + intros Hun. split.
      * unfold unique_ids in *. rewrite map_app. simpl.
        apply NoDup_app; [exact Hun | repeat constructor; intros [] |].
        intros k Hk [<- | []]. apply in_map_iff in Hk. destruct Hk as (e & He & Hin).
        pose proof (Hn e Hin) as Hfalse.
        rewrite (proj2 (same_user_identity u e) He) in Hfalse. discriminate Hfalse.
      * intros x Hx Hux. apply in_app_or in Hx. destruct Hx as [Hx | [Hx | []]].
        -- rewrite (Hn x Hx) in Hux. discriminate Hux.
        -- symmetry. exact Hx.
Qed.

Lemma in_board (L : list Leaderboard.entry) (x : Leaderboard.entry) :
  In x (firstn 10 (Leaderboard.sort_desc L)) -> In x L.
Proof.
  intros Hx. apply firstn_In in Hx.
  exact (Permutation_in _ (Permutation_sym (sort_desc_perm L)) Hx).
Qed.

Lemma unique_ids_board (L : list Leaderboard.entry) :
  unique_ids lower L -> unique_ids lower (firstn 10 (Leaderboard.sort_desc L)).
Proof.
  unfold unique_ids. intros Hun.
  assert (Hs : NoDup (map (identity lower) (Leaderboard.sort_desc L))).
  { apply (Permutation_NoDup (Permutation_map (identity lower) (sort_desc_perm L))). exact Hun. }
  rewrite <- (firstn_skipn 10 (Leaderboard.sort_desc L)), map_app in Hs.
  exact (NoDup_app_remove_r _ _ Hs).
Qed.

(** X12. [add_score] never creates a second record for an identity: a
    board on which no two records have the same case-folded name is
    still such a board after the call, whatever function folds the case. *)
Theorem X12_identities_stay_unique (scores : list Leaderboard.entry) (u : string)
    (sc : Z) (now : string) :
  unique_ids lower scores -> unique_ids lower (Leaderboard.add_score lower scores u sc now).
Proof.
  intros Hun.
  destruct (add_score_shape scores u sc now) as (L & m & -> & _ & _ & _ & _ & _ & HL).
  apply unique_ids_board, HL, Hun.
Qed.

(** X13. On a board without double identities the score of a player
    never goes down: after [add_score(u, sc)] a record of that identity,
    if it made the cut, holds at least [sc] and at least the score the
    player had before, under the spelling of the name used first. *)
Theorem X13_best_score_kept (scores : list Leaderboard.entry) (u : string)
    (sc : Z) (now : string) (e : Leaderboard.entry) :
  unique_ids lower scores ->
  In e (Leaderboard.add_score lower scores u sc now) ->
  Leaderboard.same_user lower u e = true ->
  sc <= Leaderboard.score e /\
  (forall ex, In ex scores -> Leaderboard.same_user lower u ex = true ->
     Leaderboard.score ex <= Leaderboard.score e /\
     Leaderboard.username e = Leaderboard.username ex).
Proof.
  intros Hun He Hue.
  destruct (add_score_shape scores u sc now) as (L & m & Heq & _ & _ & Hsc & _ & Hold & HL).
  rewrite Heq in He. apply in_board in He.
  destruct (HL Hun) as [_ Honly]. rewrite (Honly e He Hue).
  split; [exact Hsc |]. intros ex Hex Huex. exact (Hold ex Hex Huex Hun).
Qed.

(** X14. [add_score(u, ...)] leaves the records of the other players
    alone: every record of the result that is not of the identity of [u]
    was on the board before, unchanged. *)
Theorem X14_other_players_untouched (scores : list Leaderboard.entry) (u : string)
    (sc : Z) (now : string) (e : Leaderboard.entry) :
  In e (Leaderboard.add_score lower scores u sc now) ->
  Leaderboard.same_user lower u e = false ->
  In e scores.
Proof.
  intros He Hue.
  destruct (add_score_shape scores u sc now) as (L & m & Heq & _ & Hm & _ & Hin & _).
  rewrite Heq in He. apply in_board in He.
  destruct (Hin e He) as [-> | Hold]; [congruence | exact Hold].
Qed.

End Identities.

(** The examples take the case folding of ASCII. *)
Lemma two_players_unique : unique_ids Leaderboard.ascii_lower two_players.
Proof.
  unfold unique_ids. repeat (constructor; [simpl; intuition discriminate |]). constructor.
Qed.

Lemma X12_identities_stay_unique_witness :
  unique_ids Leaderboard.ascii_lower two_players /\
  unique_ids Leaderboard.ascii_lower
    (Leaderboard.add_score Leaderboard.ascii_lower two_players "alice" 90 "t3").
Proof.
  split; [exact two_players_unique |].
  exact (X12_identities_stay_unique Leaderboard.ascii_lower two_players "alice" 90 "t3" two_players_unique).
Defined.

Lemma X13_best_score_kept_witness :
  Leaderboard.add_score Leaderboard.ascii_lower two_players "ALICE" 70 "t3" = two_players /\
  70 <= Leaderboard.score (Leaderboard.make_entry "Alice" 80 "t2").
Proof.
  split; [reflexivity |].
  exact (proj1 (X13_best_score_kept Leaderboard.ascii_lower two_players "ALICE" 70 "t3"
                  (Leaderboard.make_entry "Alice" 80 "t2") two_players_unique
                  (or_introl eq_refl) eq_refl)).
Defined.

Lemma X14_other_players_untouched_witness :
  In (Leaderboard.make_entry "Bob" 60 "t0")
     (Leaderboard.add_score Leaderboard.ascii_lower two_players "alice" 90 "t3") /\
  In (Leaderboard.make_entry "Bob" 60 "t0") two_players.
Proof.
  assert (H : In (Leaderboard.make_entry "Bob" 60 "t0")
                 (Leaderboard.add_score Leaderboard.ascii_lower two_players "alice" 90 "t3")).
  { right. left. reflexivity. }
  split; [exact H |].
  exact (X14_other_players_untouched Leaderboard.ascii_lower
           two_players "alice" 90 "t3"
           (Leaderboard.make_entry "Bob" 60 "t0") H eq_refl).
Defined.

(** ** Saving and loading the settings *)

(** X15. What [save_settings] writes, [load_settings] reads back: after
    a successful save, loading gives the two saved values, whatever the
    globals hold at that moment. *)
Theorem X15_settings_round_trip (saved globals : Settings.t) :
  Settings.load_settings globals (save_settings saved) = Ok saved.
Proof. destruct saved as [sv gs]. reflexivity. Qed.

Lemma find_key_none (key : string) (members : list (string * Q)) :
  has_key key members = false ->
  find (fun kv => String.eqb (fst kv) key) members = None.
Proof.
  unfold has_key. induction members as [| kv t IH]; [reflexivity |].
  simpl. destruct (String.eqb (fst kv) key); [discriminate | exact IH].
Qed.

(** In an object without repeated keys, looking a key up finds the
    member that holds it. *)
Lemma find_key_member (key : string) (v : Q) (members : list (string * Q)) :
  NoDup (map fst members) -> In (key, v) members ->
  find (fun kv => String.eqb (fst kv) key) members = Some (key, v).
Proof.
  induction members as [| [k w] t IH]; intros Hnd Hin; [destruct Hin |].
  simpl in Hnd. inversion Hnd as [| ? ? Hk Hnd']; subst.
  cbn [find fst]. destruct Hin as [[= -> ->] | Hin].
  - rewrite String.eqb_refl. reflexivity.
  - destruct (String.eqb_spec k key) as [-> | _].
    + exfalso. apply Hk. change key with (fst (key, v)). apply in_map, Hin.
    + apply IH; assumption.
Qed.

(** X16. From a settings file that holds an object, each of the two
    values is taken from the file when the object has the key, whatever
    the globals held before; a missing key gives 0.5 for the volume and
    0.4 for the speed, which is not the speed 0.1 that a missing file
    gives. *)
Theorem X16_settings_missing_keys (globals : Settings.t) (members : list (string * Q)) :
  NoDup (map fst members) ->
  exists s,
    Settings.load_settings globals (Some (Json (Settings.JObject members))) = Ok s /\
    (forall v, In ("sound_volume"%string, v) members -> Settings.sound_volume s = v) /\
    (forall v, In ("game_speed"%string, v) members -> Settings.game_speed s = v) /\
    (has_key "sound_volume" members = false -> Settings.sound_volume s = 0.5%Q) /\
    (has_key "game_speed" members = false ->
       Settings.game_speed s = 0.4%Q /\
       Settings.game_speed s <> Settings.game_speed Settings.defaults).
Proof.
  intros Hnd.
  unfold Settings.load_settings. cbn [path_exists open_read json_load bind try_except].
  unfold Settings.get.
  destruct (find (fun kv => String.eqb (fst kv) "sound_volume") members) as [kv1 |] eqn:H1;
    destruct (find (fun kv => String.eqb (fst kv) "game_speed") members) as [kv2 |] eqn:H2;
    cbn [bind try_except]; eexists; (split; [reflexivity |]);
    cbn [Settings.sound_volume Settings.game_speed];
    (split; [| split; [| split]]);
    try (intros v Hin; pose proof (find_key_member _ v members Hnd Hin) as Hf;
         first [ rewrite Hf in H1; first [discriminate H1 | injection H1 as <-; reflexivity]
               | rewrite Hf in H2; first [discriminate H2 | injection H2 as <-; reflexivity] ]);
    try (intros Hk; apply find_key_none in Hk; congruence);
    try (intros _; split; [reflexivity | discriminate]).
Qed.

(** A file with a volume and no speed, read while the globals hold other
    values. *)
Lemma X16_settings_missing_keys_witness :
  NoDup (map fst [("sound_volume"%string, 0.25%Q)]) /\
  Settings.load_settings (Settings.make 0.9 0.9)
    (Some (Json (Settings.JObject [("sound_volume"%string, 0.25%Q)]))) =
    Ok (Settings.make 0.25 0.4).
Proof.
  assert (Hnd : NoDup (map fst [("sound_volume"%string, 0.25%Q)])).
  { constructor; [intros [] | constructor]. }
  split; [exact Hnd |].
  destruct (X16_settings_missing_keys (Settings.make 0.9 0.9)
              [("sound_volume"%string, 0.25%Q)] Hnd) as (s & Hs & _).
  reflexivity.
Defined.

(** ** Score and the grow flag *)

(** X17. A pass of the loop that goes on adds 0, 10, 20 or 30 to the
    score, and it leaves the grow flag set exactly when it added
    something: the snake grows on the next move if and only if this pass
    scored. *)
Theorem X17_score_and_grow_flag (fr : Game.Frame) (g g' : Game.t) :
  Game.tick fr g = Game.Continue g' ->
  In (Game.score g' - Game.score g) [0; 10; 20; 30] /\
  (Snake.grow (Game.snake g') = true <-> Game.score g < Game.score g').
Proof.
  intros Ht. destruct (tick_stages fr g g' (or_introl Ht)) as (g1 & Hu & Hcase).
  destruct Hcase as [(_ & _ & ->) | (Hb & _)]; [| rewrite Ht in Hb; discriminate Hb].
  destruct (upto_food_spec fr g g1 Hu) as [_ Hfood].
  cbn [Game.update_special Game.snake Game.score].
  unfold Game.special_collision.
  destruct (Game.special_food g1) as [sf |].
  - destruct (Game.special_hit (Game.snake g1) sf).
    + cbn [Game.snake Game.score Snake.set_grow Snake.grow]. unfold SpecialFood.points.
      destruct Hfood as [(_ & -> & _) | (_ & -> & _)]; split;
        try (split; [intros _; lia | reflexivity]); simpl.
      * replace (Game.score g + 20 - Game.score g) with 20 by lia. auto.
      * replace (Game.score g + 10 + 20 - Game.score g) with 30 by lia. auto 6.
    + destruct Hfood as [(_ & -> & ->) | (_ & -> & ->)]; split;
        try (split; [intros H; first [discriminate H | lia] | intros H; first [lia | reflexivity]]);
        simpl.
      * replace (Game.score g - Game.score g) with 0 by lia. auto.
      * replace (Game.score g + 10 - Game.score g) with 10 by lia. auto.
  - destruct Hfood as [(_ & -> & ->) | (_ & -> & ->)]; split;
      try (split; [intros H; first [discriminate H | lia] | intros H; first [lia | reflexivity]]);
      simpl.
    + replace (Game.score g - Game.score g) with 0 by lia. auto.
    + replace (Game.score g + 10 - Game.score g) with 10 by lia. auto.
Qed.

Lemma X17_score_and_grow_flag_witness :
  Game.tick demo_first_frame demo_after_start = Game.Continue demo_after_first /\
  In (Game.score demo_after_first - Game.score demo_after_start) [0; 10; 20; 30] /\
  (Snake.grow (Game.snake demo_after_first) = true <->
   Game.score demo_after_start < Game.score demo_after_first).
Proof.
  split; [reflexivity |].
  exact (X17_score_and_grow_flag demo_first_frame demo_after_start demo_after_first eq_refl).
Defined.

(** ** The sliders of the settings menu *)

Lemma clamp_range (q : Q) :
  (0 <= Slider.py_max 0 (Slider.py_min 1 q) <= 1)%Q.
Proof.
  unfold Slider.py_max, Slider.py_min.
  destruct (Qlt_le_dec q 1); destruct (Qlt_le_dec 0 _); split; lra.
Qed.

Lemma slider_event_range (s s' : Slider.t) (e : Slider.event) :
  Slider.handle_event s e = Some s' ->
  (0 <= Slider.value s <= 1)%Q -> (0 <= Slider.value s' <= 1)%Q.
Proof.
  destruct e as [pos | | pos |]; simpl.
  - destruct (Slider.on_knob s pos); intros [= <-]; auto.
  - intros [= <-]; auto.
  - destruct (Slider.dragging s); [| intros [= <-]; auto].
    destruct (Slider.width s =? 0); [discriminate |].
    intros [= <-] _. apply clamp_range.
  - intros [= <-]; auto.
Qed.

(** X18. Whatever is done with a slider, its value stays between 0 and
    1: an event leaves it unchanged or clamps the new value into [0, 1].
    For the speed slider this means that the tick rate of the next
    session, computed from the value, is between 10 and 30. *)
Theorem X18_slider_value_in_range (evs : list Slider.event) (s s' : Slider.t) :
  (0 <= Slider.value s <= 1)%Q ->
  Slider.handle_events evs s = Some s' ->
  (0 <= Slider.value s' <= 1)%Q /\
  10 <= Game.fps_of (Slider.value s') <= 30.
Proof.
  intros Hr Hrun.
  assert (Hv : (0 <= Slider.value s' <= 1)%Q).
  { revert s Hr Hrun. induction evs as [| e evs IH]; intros s Hr.
    - simpl. intros [= <-]. exact Hr.
    - cbn [Slider.handle_events].
      destruct (Slider.handle_event s e) as [s1 |] eqn:He; [| discriminate].
      apply IH. exact (slider_event_range s s1 e He Hr). }
  split; [exact Hv |]. destruct Hv as [H0 H1].
  apply fps_of_between; try lia.
  - change (inject_Z 10) with 10%Q. lra.
  - change (inject_Z 30) with 30%Q. lra.
Qed.

Lemma X18_slider_value_in_range_witness :
  Slider.handle_events
    [Slider.MOUSEBUTTONDOWN (280, 300); Slider.MOUSEMOTION (900, 310); Slider.MOUSEBUTTONUP]
    (speed_slider 0.1) = Some (Slider.make 250 300 300 1 false) /\
  Game.fps_of 1 = 30.
Proof.
  assert (Hrun : Slider.handle_events
    [Slider.MOUSEBUTTONDOWN (280, 300); Slider.MOUSEMOTION (900, 310); Slider.MOUSEBUTTONUP]
    (speed_slider 0.1) = Some (Slider.make 250 300 300 1 false)) by reflexivity.
  assert (Hr : (0 <= Slider.value (speed_slider 0.1) <= 1)%Q) by (split; discriminate).
  destruct (X18_slider_value_in_range _ _ _ Hr Hrun) as [_ _].
  split; [exact Hrun | reflexivity].
Defined.

(** X19. A slider that is not held does not follow the mouse: without a
    click on the knob, no sequence of motions, releases and other events
    changes the value, and none of them raises. *)
Theorem X19_slider_needs_grab (evs : list Slider.event) (s : Slider.t) :
  Slider.dragging s = false ->
  existsb Slider.is_down evs = false ->
  exists s', Slider.handle_events evs s = Some s' /\
             Slider.value s' = Slider.value s /\ Slider.dragging s' = false.
Proof.
  revert s. induction evs as [| e evs IH]; intros s Hd Hno.
  - exists s. repeat split. exact Hd.
  - cbn [existsb] in Hno. apply orb_false_iff in Hno. destruct Hno as [He Hrest].
    cbn [Slider.handle_events].
    destruct e as [pos | | pos |]; try discriminate He; cbn [Slider.handle_event].
    + destruct (IH (Slider.make (Slider.x s) (Slider.y s) (Slider.width s)
                      (Slider.value s) false) eq_refl Hrest) as (s' & Hrun & Hv & Hdr).
      exists s'. repeat split; assumption.
    + rewrite Hd. destruct (IH s Hd Hrest) as (s' & Hrun & Hv & Hdr).
      exists s'. repeat split; assumption.
    + destruct (IH s Hd Hrest) as (s' & Hrun & Hv & Hdr).
      exists s'. repeat split; assumption.
Qed.

Lemma X19_slider_needs_grab_witness :
  exists s', Slider.handle_events [Slider.MOUSEMOTION (900, 310); Slider.MOUSEBUTTONUP]
               (speed_slider 0.1) = Some s' /\
             Slider.value s' = Slider.value (speed_slider 0.1) /\
             Slider.dragging s' = false.
Proof.
  exact (X19_slider_needs_grab [Slider.MOUSEMOTION (900, 310); Slider.MOUSEBUTTONUP]
           (speed_slider 0.1) eq_refl eq_refl).
Defined.



(** ** The name a game is played under *)

Lemma lstrip_first (s : string) : Username.first_is_space (Username.lstrip s) = false.
Proof.
  induction s as [| c rest IH]; [reflexivity |].
  simpl. destruct (Username.is_space c) eqn:Hc; [exact IH | simpl; exact Hc].
Qed.

Lemma rstrip_last (s : string) : Username.last_is_space (Username.rstrip s) = false.
Proof.
  induction s as [| c rest IH]; [reflexivity |].
  simpl. destruct (Username.rstrip rest) as [| c' kept] eqn:Hr.
  - destruct (Username.is_space c) eqn:Hc; [reflexivity | simpl; exact Hc].
  - exact IH.
Qed.

Lemma lstrip_keeps_last (s : string) :
  Username.last_is_space s = false ->
  Username.last_is_space (Username.lstrip s) = false.
Proof.
  induction s as [| c rest IH]; [reflexivity |].
  intros Hl. simpl. destruct (Username.is_space c) eqn:Hc; [| exact Hl].
  apply IH. destruct rest as [| c' r]; [reflexivity | exact Hl].
Qed.

Lemma strip_trimmed (s : string) :
  Username.first_is_space (Username.strip s) = false /\
  Username.last_is_space (Username.strip s) = false.
Proof.
  unfold Username.strip. split; [apply lstrip_first |].
  apply lstrip_keeps_last, rstrip_last.
Qed.

(** X21. The name [username_input] hands to the game is never empty and
    never starts or ends with white space: the text is stripped, and a
    text that is empty or all white space becomes "Player". *)
Theorem X21_username_never_blank (text : string) :
  Username.result text <> ""%string /\
  Username.first_is_space (Username.result text) = false /\
  Username.last_is_space (Username.result text) = false /\
  (Username.strip text = ""%string -> Username.result text = "Player"%string).
Proof.
  unfold Username.result, Username.result_with.
  destruct (String.eqb_spec (Username.strip text) "") as [He | Hne].
  - repeat split; discriminate.
  - destruct (strip_trimmed text) as [H1 H2]. repeat split; try assumption.
    intros He. contradiction.
Qed.




(** X25. The value "back" that [username_input] returns for a click on
    the Back button is also what it returns for a typed name that strips
    to "back"; [main_menu] cannot tell the two apart, so under that name
    no game is started.  Every other name starts a game.  This holds
    whatever [str.strip] removes, so also for names with white space
    outside ASCII. *)
Theorem X25_name_back_starts_no_game (strip : string -> string) (text : string) :
  Username.starts_game (Username.username_input strip Username.Back_clicked) = false /\
  (strip text = "back"%string ->
     Username.username_input strip (Username.Entered text) =
       Username.username_input strip Username.Back_clicked /\
     Username.starts_game (Username.username_input strip (Username.Entered text)) = false) /\
  (strip text <> "back"%string ->
     Username.starts_game (Username.username_input strip (Username.Entered text)) = true).
Proof.
  split; [reflexivity |].
  unfold Username.starts_game, Username.username_input, Username.result_with.
  split.
  - intros ->. split; reflexivity.
  - intros Hne. destruct (String.eqb_spec (strip text) "") as [He | _].
    + reflexivity.
    + apply negb_true_iff, String.eqb_neq. exact Hne.
Qed.

(** A name typed with spaces around it, stripped as ASCII text is. *)
Lemma X25_name_back_starts_no_game_witness :
  Username.strip " back  " = "back"%string /\
  Username.starts_game
    (Username.username_input Username.strip (Username.Entered " back  ")) = false.
Proof.
  split; [reflexivity |].
  exact (proj2 (proj1 (proj2 (X25_name_back_starts_no_game Username.strip " back  "))
                  eq_refl)).
Defined.

(** ** Pruning the particles *)

Section ParticlePruning.

Variable F : Type.
Variable add sub : F -> F -> F.
Variable tenth : F.
Variable le0 : F -> bool.
Variable eqb : F -> F -> bool.

(** Numbers that compare equal are on the same side of zero. *)
Hypothesis eqb_le0 : forall a b, eqb a b = true -> le0 a = le0 b.

Lemma remove_own (h : Particles.heap F) (i : nat) (kept rest : list nat) :
  le0 (Particles.life F (h i)) = true ->
  (forall k, In k kept -> k <> i /\ le0 (Particles.life F (h k)) = false) ->
  Particles.remove F eqb h i (kept ++ i :: rest) = Some (kept ++ rest).
Proof.
  intros Hi. induction kept as [| k kept IH]; intros Hk.
  - simpl. rewrite Nat.eqb_refl. reflexivity.
  - cbn [app Particles.remove].
    destruct (Hk k (or_introl eq_refl)) as [Hne Hlife].
    replace (Nat.eqb k i) with false by (symmetry; apply Nat.eqb_neq; exact Hne).
    replace (Particles.particle_eqb F eqb (h k) (h i)) with false.
    + cbn [orb]. rewrite IH; [reflexivity |].
      intros k' Hk'. apply Hk. right. exact Hk'.
    + symmetry. unfold Particles.particle_eqb.
      destruct (eqb (Particles.life F (h k)) (Particles.life F (h i))) eqn:He.
      * apply eqb_le0 in He. congruence.
      * rewrite !andb_false_r. reflexivity.
Qed.

Lemma update_loop_spec (rest : list nat) :
  forall (kept : list nat) (h : Particles.heap F),
  NoDup (kept ++ rest) ->
  (forall k, In k kept -> le0 (Particles.life F (h k)) = false) ->
  exists h',
    Particles.update_loop F add sub tenth le0 eqb rest (kept ++ rest) h =
      Some (kept ++ filter (Particles.survives F add sub tenth le0 h) rest, h') /\
    (forall i, In i rest -> h' i = Particles.step F add sub tenth (h i)) /\
    (forall i, ~ In i rest -> h' i = h i).
Proof.
  induction rest as [| i rest IH]; intros kept h Hnd Hkept.
  - exists h. simpl. repeat split. intros i [].
  - cbn [Particles.update_loop filter].
    set (h1 := Particles.store F h i (Particles.step F add sub tenth (h i))).
    assert (Hh1i : h1 i = Particles.step F add sub tenth (h i)).
    { unfold h1, Particles.store. rewrite Nat.eqb_refl. reflexivity. }
    assert (Hh1o : forall j, j <> i -> h1 j = h j).
    { intros j Hj. unfold h1, Particles.store.
      replace (Nat.eqb j i) with false by (symmetry; apply Nat.eqb_neq; exact Hj).
      reflexivity. }
    assert (Hi_kept : ~ In i kept).
    { intros Hin. apply NoDup_remove_2 in Hnd. apply Hnd, in_or_app. left. exact Hin. }
    assert (Hi_rest : ~ In i rest).
    { intros Hin. apply NoDup_remove_2 in Hnd. apply Hnd, in_or_app. right. exact Hin. }
    assert (Hsurv : filter (Particles.survives F add sub tenth le0 h1) rest =
                    filter (Particles.survives F add sub tenth le0 h) rest).
    { apply filter_ext_in. intros j Hj. unfold Particles.survives.
      rewrite Hh1o; [reflexivity |]. intros ->. exact (Hi_rest Hj). }
    unfold Particles.survives at 1. rewrite Hh1i.
    destruct (le0 (Particles.life F (Particles.step F add sub tenth (h i)))) eqn:Hle; cbn [negb].
    + rewrite (remove_own h1 i kept rest).
      * destruct (IH kept h1) as (h' & Hrun & Hin & Hout).
        -- exact (NoDup_remove_1 _ _ _ Hnd).
        -- intros k Hk. rewrite Hh1o; [apply Hkept, Hk |]. intros ->. exact (Hi_kept Hk).
        -- exists h'. rewrite Hrun, Hsurv. split; [reflexivity |]. split.
           ++ intros j [<- | Hj].
              ** rewrite (Hout i Hi_rest). exact Hh1i.
              ** rewrite (Hin j Hj), Hh1o; [reflexivity |]. intros ->. exact (Hi_rest Hj).
           ++ intros j Hj. rewrite (Hout j); [| intros Hjr; apply Hj; right; exact Hjr].
              apply Hh1o. intros ->. apply Hj. left. reflexivity.
      * rewrite Hh1i. exact Hle.
      * intros k Hk. split; [intros ->; exact (Hi_kept Hk) |].
        rewrite Hh1o; [apply Hkept, Hk |]. intros ->. exact (Hi_kept Hk).
    + replace (kept ++ i :: rest) with ((kept ++ [i]) ++ rest)
        by (rewrite <- app_assoc; reflexivity).
      destruct (IH (kept ++ [i]) h1) as (h' & Hrun & Hin & Hout).
      * rewrite <- app_assoc. exact Hnd.
      * intros k Hk. apply in_app_or in Hk. destruct Hk as [Hk | [<- | []]].
        -- rewrite Hh1o; [apply Hkept, Hk |]. intros ->. exact (Hi_kept Hk).
        -- rewrite Hh1i. exact Hle.
      * exists h'. rewrite Hrun, Hsurv, <- app_assoc. split; [reflexivity |]. split.
        -- intros j [<- | Hj].
           ++ rewrite (Hout i Hi_rest). exact Hh1i.
           ++ rewrite (Hin j Hj), Hh1o; [reflexivity |]. intros ->. exact (Hi_rest Hj).
        -- intros j Hj. rewrite (Hout j); [| intros Hjr; apply Hj; right; exact Hjr].
           apply Hh1o. intros ->. apply Hj. left. reflexivity.
Qed.

(** X23. [update_particles] removes from the list while it runs over a
    copy of it, and removes by value; still it never raises, every
    particle is advanced exactly once, and what is left are exactly the
    particles whose life after the decrement is above zero, in their old
    order.  This needs the particles of the list to be distinct objects,
    as they are, and numbers that compare equal to lie on the same side
    of zero. *)
Theorem X23_particles_pruned (particles : list nat) (h : Particles.heap F) :
  NoDup particles ->
  exists h',
    Particles.update_particles F add sub tenth le0 eqb particles h =
      Some (filter (Particles.survives F add sub tenth le0 h) particles, h') /\
    (forall i, In i particles -> h' i = Particles.step F add sub tenth (h i)) /\
    (forall i, ~ In i particles -> h' i = h i) /\
    (forall i, In i (filter (Particles.survives F add sub tenth le0 h) particles) ->
       le0 (Particles.life F (h' i)) = false).
Proof.
  intros Hnd.
  destruct (update_loop_spec particles [] h Hnd (fun k (Hk : In k []) => match Hk with end))
    as (h' & Hrun & Hin & Hout).
  exists h'. split; [exact Hrun |]. split; [exact Hin |]. split; [exact Hout |].
  intros i Hi. apply filter_In in Hi. destruct Hi as [Hi Hs].
  rewrite (Hin i Hi). unfold Particles.survives in Hs.
  apply negb_true_iff in Hs. exact Hs.
Qed.

End ParticlePruning.

Lemma Q_eqb_le0 (a b : Q) :
  Qeq_bool a b = true -> Qle_bool a 0 = Qle_bool b 0.
Proof.
  intros He. apply Qeq_bool_iff in He.
  destruct (Qle_bool a 0) eqn:Ha; destruct (Qle_bool b 0) eqn:Hb; try reflexivity.
  - apply Qle_bool_iff in Ha. rewrite He in Ha. apply Qle_bool_iff in Ha. congruence.
  - apply Qle_bool_iff in Hb. rewrite <- He in Hb. apply Qle_bool_iff in Hb. congruence.
Qed.

Lemma X23_particles_pruned_witness :
  exists h',
    Particles.update_particles Q Qplus Qminus 0.1%Q (fun v => Qle_bool v 0) Qeq_bool
      [0%nat; 1%nat] two_particles = Some ([1%nat], h') /\
    h' 1%nat = Particles.step Q Qplus Qminus 0.1%Q (two_particles 1%nat).
Proof.
  assert (Hnd : NoDup [0%nat; 1%nat]).
  { repeat constructor; simpl; intuition discriminate. }
  destruct (X23_particles_pruned Q Qplus Qminus 0.1%Q (fun v => Qle_bool v 0) Qeq_bool
              Q_eqb_le0 [0%nat; 1%nat] two_particles Hnd) as (h' & Hrun & Hin & _ & _).
  exists h'. split; [exact Hrun |]. apply Hin. right. left. reflexivity.
Defined.

(** ** The countdown *)

Lemma seconds_left_range (elapsed : Z) :
  0 <= elapsed < 3000 -> 1 <= Countdown.seconds_left elapsed <= 3.
Proof.
  intros He. unfold Countdown.seconds_left.
  set (q := (inject_Z elapsed / 1000)%Q).
  assert (H0 : (0 <= q)%Q).
  { unfold q. apply Qle_shift_div_l; [reflexivity |]. rewrite Qmult_0_l.
    change 0%Q with (inject_Z 0). rewrite <- Zle_Qle. lia. }
  assert (H1 : (q <= 2999 # 1000)%Q).
  { unfold q. apply Qle_shift_div_r; [reflexivity |].
    setoid_replace ((2999 # 1000) * 1000)%Q with (inject_Z 2999) by reflexivity.
    rewrite <- Zle_Qle. lia. }
  assert (Hlo : (0 <= Float.fl q)%Q).
  { change 0%Q with (Float.fl 0) at 1. apply fl_mono; [apply Qle_refl | exact H0]. }
  assert (Hhi : (Float.fl q <= Float.fl (2999 # 1000))%Q) by (apply fl_mono; assumption).
  rewrite (int_floor _ Hlo).
  assert (Hf0 : 0 <= Qfloor (Float.fl q)).
  { change 0 with (Qfloor 0%Q). apply Qfloor_resp_le, Hlo. }
  assert (Hf2 : Qfloor (Float.fl q) <= 2).
  { assert (E : Qfloor (Float.fl (2999 # 1000)) = 2) by (vm_compute; reflexivity).
    rewrite <- E. apply Qfloor_resp_le, Hhi. }
  lia.
Qed.

Lemma countdown_loop_spec (readings : list Z) :
  forall (start_time : Z) (go : option Z) (stop : Z) (frames : list Countdown.shown),
  StronglySorted Z.le readings ->
  Forall (fun t => start_time <= t) readings ->
  (forall g, go = Some g -> start_time + 3000 <= g) ->
  Countdown.loop readings start_time go = Some (stop, frames) ->
  start_time + 4000 <= stop /\ Forall Countdown.digit_ok frames.
Proof.
  induction readings as [readings IH] using (well_founded_induction
    (Wf_nat.well_founded_ltof _ (@List.length Z))).
  intros start_time go stop frames Hs Hge Hgo.
  destruct readings as [| t rest]; [discriminate |].
  apply StronglySorted_inv in Hs. destruct Hs as [Hs Ht].
  apply Forall_cons_iff in Hge. destruct Hge as [Hgt Hge].
  cbn [Countdown.loop].
  destruct (Z.ltb_spec (t - start_time) 3000) as [Hlt | Hnlt].
  - destruct (Countdown.loop rest start_time go) as [[stop' frames'] |] eqn:Hl;
      [| discriminate].
    intros [= <- <-].
    assert (Hshort : Wf_nat.ltof _ (@List.length Z) rest (t :: rest))
      by (unfold Wf_nat.ltof; simpl; lia).
    destruct (IH rest Hshort _ _ _ _ Hs Hge Hgo Hl) as [Hstop Hfr].
    split; [exact Hstop |]. constructor; [| exact Hfr].
    apply seconds_left_range. lia.
  - destruct rest as [| ticks rest']; [discriminate |].
    apply StronglySorted_inv in Hs. destruct Hs as [Hs' Hticks].
    apply Forall_cons_iff in Hge. destruct Hge as [Hgticks Hge'].
    apply Forall_cons_iff in Ht. destruct Ht as [Httk _].
    destruct go as [g |].
    + specialize (Hgo g eq_refl).
      destruct (Z.geb_spec (ticks - g) 1000) as [Hdone | Hwait].
      * intros [= <- <-]. split; [lia | constructor].
      * destruct (Countdown.loop rest' start_time (Some g)) as [[stop' frames'] |] eqn:Hl;
          [| discriminate].
        intros [= <- <-].
        assert (Hgo' : forall g', Some g = Some g' -> start_time + 3000 <= g')
          by (intros g' Hg; injection Hg as <-; exact Hgo).
        assert (Hshort : Wf_nat.ltof _ (@List.length Z) rest' (t :: ticks :: rest'))
          by (unfold Wf_nat.ltof; simpl; lia).
        destruct (IH rest' Hshort _ _ _ _ Hs' Hge' Hgo' Hl) as [Hstop Hfr].
        split; [exact Hstop |]. constructor; [exact I | exact Hfr].
    + destruct (Countdown.loop rest' start_time (Some ticks)) as [[stop' frames'] |] eqn:Hl;
        [| discriminate].
      intros [= <- <-].
      assert (Hgo' : forall g', Some ticks = Some g' -> start_time + 3000 <= g')
        by (intros g' Hg; injection Hg as <-; lia).
      assert (Hshort : Wf_nat.ltof _ (@List.length Z) rest' (t :: ticks :: rest'))
        by (unfold Wf_nat.ltof; simpl; lia).
      destruct (IH rest' Hshort _ _ _ _ Hs' Hge' Hgo' Hl) as [Hstop Hfr].
      split; [exact Hstop |]. constructor; [exact I | exact Hfr].
Qed.

(** X24. With a clock that never runs backwards, [countdown] returns no
    sooner than 4000 ms after it was entered (three seconds of digits
    and one of "Go!"), and the only digits it ever shows are 3, 2 and 1. *)
Theorem X24_countdown_lasts_four_seconds (readings : list Z) (start_time stop : Z)
    (frames : list Countdown.shown) :
  StronglySorted Z.le readings ->
  Countdown.countdown readings = Some (start_time, stop, frames) ->
  start_time + 4000 <= stop /\ Forall Countdown.digit_ok frames.
Proof.
  intros Hs. unfold Countdown.countdown.
  destruct readings as [| t0 rest]; [discriminate |].
  destruct (Countdown.loop rest t0 None) as [[stop' frames'] |] eqn:Hl; [| discriminate].
  intros [= <- <- <-].
  apply StronglySorted_inv in Hs. destruct Hs as [Hs Hall].
  apply (countdown_loop_spec rest t0 None stop' frames' Hs Hall); [discriminate | exact Hl].
Qed.

Lemma X24_countdown_lasts_four_seconds_witness :
  Countdown.countdown [0; 500; 1500; 2500; 3100; 3110; 3600; 3610; 4200; 4210] =
    Some (0, 4210, [Countdown.Digit 3; Countdown.Digit 2; Countdown.Digit 1;
                    Countdown.Go; Countdown.Go]) /\
  0 + 4000 <= 4210.
Proof.
  assert (Hrun : Countdown.countdown [0; 500; 1500; 2500; 3100; 3110; 3600; 3610; 4200; 4210] =
    Some (0, 4210, [Countdown.Digit 3; Countdown.Digit 2; Countdown.Digit 1;
                    Countdown.Go; Countdown.Go])) by reflexivity.
  split; [exact Hrun |].
  assert (Hs : StronglySorted Z.le [0; 500; 1500; 2500; 3100; 3110; 3600; 3610; 4200; 4210]).
  { repeat (constructor; [| repeat (constructor; [lia |]); constructor]). constructor. }
  exact (proj1 (X24_countdown_lasts_four_seconds _ 0 4210 _ Hs Hrun)).
Defined.
